(** * Shallow embedding of the KiCad IPC board parser
    ([InteractiveHtmlBom/ecad/kicad_ipc.py], class [KiCadIPCParser]).

    Modelling conventions:
    - native lengths are nanometre integers ([Z]); the parser's
      [normalize] multiplies them by [1e-6].  Floats are modelled by exact
      rationals ([Q]), so IEEE rounding is abstracted away; module [F64]
      gives the binary64 reading of [normalize] on an integer, against
      which its round trip is stated;
    - Python dicts of the output document are records whose optional keys
      are [option] fields;
    - [self.logger] is a writer (list of log entries) and the client-side
      objects the parser mutates (text values) together with the board's
      custom pad outlines form an explicit store threaded through a small
      state monad [M];
    - the KiCad / kipy collaborators that are not Python code of this
      parser (text rendering, variable expansion, svg path building, the
      font parser) are section variables. *)

From Stdlib Require Import ZArith QArith Ascii String List Bool Sorting.Sorted
  Sorting.Permutation Relations.Relation_Operators QArith.Qminmax QArith.Qpower
  QArith.Qabs Lia Lqa.
From Stdlib Require Floats.SpecFloat.
From stdpp Require Import base strings.
Import ListNotations.

Open Scope string_scope.

(** ** Geometry and units *)

Record Vector2 := mkVec { vx : Z; vy : Z }.

Definition vadd (a b : Vector2) : Vector2 := mkVec (vx a + vx b) (vy a + vy b).
Definition vneg (a : Vector2) : Vector2 := mkVec (- vx a) (- vy a).

(** A normalized 2-D point: the Python list [[x * 1e-6, y * 1e-6]]. *)
Definition mmpt : Type := (Q * Q)%type.

(** [1e-6] *)
Definition nm_scale : Q := 1 # 1000000.

(** [normalize] for a scalar length (an integer, or a float computed by
    kipy such as a radius). *)
Definition normalize (v : Q) : Q := (v * nm_scale)%Q.

Definition normalize_Z (v : Z) : Q := normalize (inject_Z v).

(** [normalize] for a [Vector2]. *)
Definition normalize_vec (p : Vector2) : mmpt := (normalize_Z (vx p), normalize_Z (vy p)).

(** *** [normalize] on an integer, in binary64

    On an integer length [n] (a kipy coordinate), [n * 1e-6] is evaluated
    by [float.__rmul__]: [n] is converted to the nearest double, rounding
    half to even ([OverflowError] when that double would be infinite,
    [None] here), and multiplied by the double nearest [1e-6], rounding to
    nearest even.  This reading uses the Standard Library's [SpecFloat]
    model of IEEE 754 binary64 (53-bit precision, [emax] 1024). *)
Module F64.
Import SpecFloat.











End F64.

(** kipy's [Box2]: a position and a size. *)
Record Box2 := mkBox { box_pos : Vector2; box_size : Vector2 }.

(** kipy's [Box2.merge]: the union box of [self] and [other]
    (min of the positions, max of the far corners). *)
Definition box_merge (self other : Box2) : Box2 :=
  let min_x := Z.min (vx (box_pos self)) (vx (box_pos other)) in
  let min_y := Z.min (vy (box_pos self)) (vy (box_pos other)) in
  let max_x := Z.max (vx (box_pos self) + vx (box_size self))
                     (vx (box_pos other) + vx (box_size other)) in
  let max_y := Z.max (vy (box_pos self) + vy (box_size self))
                     (vy (box_pos other) + vy (box_size other)) in
  mkBox (mkVec min_x min_y) (mkVec (max_x - min_x) (max_y - min_y)).

(** kipy's [Box2.move]. *)
Definition box_move (b : Box2) (delta : Vector2) : Box2 :=
  mkBox (vadd (box_pos b) delta) (box_size b).

(** ** Board layers *)

Inductive BoardLayer :=
| BL_F_Cu | BL_B_Cu | BL_F_SilkS | BL_B_SilkS | BL_F_Fab | BL_B_Fab
| BL_Edge_Cuts | BL_Other (code : Z).

Definition layer_eqb (a b : BoardLayer) : bool :=
  match a, b with
  | BL_F_Cu, BL_F_Cu | BL_B_Cu, BL_B_Cu | BL_F_SilkS, BL_F_SilkS
  | BL_B_SilkS, BL_B_SilkS | BL_F_Fab, BL_F_Fab | BL_B_Fab, BL_B_Fab
  | BL_Edge_Cuts, BL_Edge_Cuts => true
  | BL_Other x, BL_Other y => Z.eqb x y
  | _, _ => false
  end.

(** Python's [x in [l1, l2, ...]] for layers. *)
Definition layer_in (x : BoardLayer) (l : list BoardLayer) : bool :=
  existsb (layer_eqb x) l.

(** ** Logger and store *)

Inductive LogLevel := Info | Warn | Error.

Record LogEntry := mkLog { log_level : LogLevel; log_msg : string }.

(** kipy's polygon nodes: a node carries a point, an arc, or neither. *)
Record ArcData := mkArc { arc_start : Vector2; arc_mid : Vector2; arc_end : Vector2 }.

Inductive PolyLineNode :=
| NodePoint (p : Vector2)
| NodeArc (a : ArcData)
| NodeEmpty.

Record PolygonWithHoles := mkPolygon {
  outline : list PolyLineNode;
  holes : list (list PolyLineNode) }.

Definition node_move (delta : Vector2) (n : PolyLineNode) : PolyLineNode :=
  match n with
  | NodePoint p => NodePoint (vadd p delta)
  | NodeArc a => NodeArc (mkArc (vadd (arc_start a) delta) (vadd (arc_mid a) delta)
                                (vadd (arc_end a) delta))
  | NodeEmpty => NodeEmpty
  end.

(** kipy's [PolygonWithHoles.move]; on a value, i.e. on the object it is
    called on and not on anything else. *)
Definition polygon_move (p : PolygonWithHoles) (delta : Vector2) : PolygonWithHoles :=
  mkPolygon (map (node_move delta) (outline p)) (map (map (node_move delta)) (holes p)).

(** The mutable state the parser can reach: the value of every text object
    it holds (by object id) and the board's live custom pad outlines (by pad
    id), which [board.get_pad_shapes_as_polygons] reads. *)
Record Store := mkStore {
  st_text : nat -> string;
  st_pad_outline : nat -> option PolygonWithHoles }.

Definition M (A : Type) : Type := Store -> A * Store * list LogEntry.

Definition ret {A} (a : A) : M A := fun s => (a, s, []).

Definition bind {A B} (m : M A) (k : A -> M B) : M B :=
  fun s => let '(a, s1, w1) := m s in
           let '(b, s2, w2) := k a s1 in (b, s2, (w1 ++ w2)%list).

Notation "'let*' x ':=' m 'in' k" := (bind m (fun x => k))
  (at level 200, x name, m at level 100, k at level 200).

Definition log (l : LogLevel) (msg : string) : M unit := fun s => (tt, s, [mkLog l msg]).

Definition get_text_value (tid : nat) : M string := fun s => (st_text s tid, s, []).

(** [d.value = v] on the text object [tid]. *)
Definition set_text_value (tid : nat) (v : string) : M unit :=
  fun s => (tt, mkStore (fun j => if Nat.eqb j tid then v else st_text s j)
                         (st_pad_outline s), []).

Definition get_pad_outline (pid : nat) : M (option PolygonWithHoles) :=
  fun s => (st_pad_outline s pid, s, []).

Fixpoint mapM {A B} (f : A -> M B) (l : list A) : M (list B) :=
  match l with
  | [] => ret []
  | x :: l' => let* y := f x in let* ys := mapM f l' in ret (y :: ys)
  end.

(** ** Drawables and drawings *)

(** One element of [get_text_as_shapes(...)[0]]: a stroke [Segment], a
    fill [Polygon] (its [polygons[0]]) or anything else. *)
Inductive Subshape :=
| SubSegment (start end_ : Vector2)
| SubPolygon (p : PolygonWithHoles)
| SubOther.

(** The native drawables handed to [parse_shape]: the concrete kipy classes
    it dispatches on, and any other class.  Text objects carry the id of the
    object in the store (their [value] lives there) and the offset the
    parser adds ([position] for [BoardText] and [Field.text], [top_left]
    for [BoardTextBox]). *)
Inductive ShapeKind :=
| KSegment (start end_ : Vector2)
| KCircle (center : Vector2) (radius : Q) (filled : bool)
| KArc (center : Vector2) (radius : Q) (start_angle end_angle : option Q)
| KPolygon (polygons : list PolygonWithHoles) (filled : bool)
| KBezier (start control1 control2 end_ : Vector2)
| KRectangle (top_left bottom_right : Vector2) (filled : bool)
| KText (tid : nat) (position : Vector2) (stroke_width_nm : Z)
| KTextBox (tid : nat) (top_left : Vector2) (stroke_width_nm : Z)
| KField (tid : nat) (position : Vector2) (stroke_width_nm : Z)
| KUnsupported (type_name : string).

(** A drawable: its layer, its kind, [attributes.stroke.width] and
    [bounding_box()]. *)
Record Drawable := mkDrawable {
  d_layer : BoardLayer;
  d_kind : ShapeKind;
  d_stroke_width : Z;
  d_bbox : Box2 }.

(** The drawing dicts [parse_shape] returns, one constructor per ["type"]
    (text has no ["type"] key: the two text dict shapes). *)
Inductive Drawing :=
| DrSegment (start end_ : mmpt) (width : Q)
| DrCircle (start : mmpt) (radius width : Q) (filled : Z)
| DrArc (start : mmpt) (radius : Q) (startangle endangle : option Q) (width : Q)
| DrPolygon (pos : Z * Z) (angle : Z) (polygons : list (list mmpt))
            (filled : option Z) (width : option Q)
| DrCurve (start cpa cpb end_ : mmpt) (width : Q)
| DrTextPath (thickness : Q) (svgpath : string)
| DrTextPolys (polygons : list (list mmpt)).

(** The collaborators the parser calls but does not implement. *)
Record Collab := mkCollab {
  (** [board.expand_text_variables] *)
  expand_text_variables : string -> string;
  (** [kicad.get_text_as_shapes(text)[0]] for the text object with the
      given id and current value *)
  get_text_as_shapes : nat -> string -> list Subshape;
  (** [svgpath.create_path] *)
  create_path : list (mmpt * mmpt) -> string;
  (** [math.degrees] *)
  degrees : Q -> Q;
  (** [FontParser().get_parsed_font()], serialized (opaque) *)
  get_parsed_font : string }.

Definition bool_to_int (b : bool) : Z := if b then 1 else 0.

(** Python's ['$' in v]. *)
Definition has_dollar (v : string) : bool :=
  existsb (Ascii.eqb "$"%char) (list_ascii_of_string v).

(** ** Pads *)

Inductive PadStackShape :=
| PSS_UNKNOWN | PSS_CIRCLE | PSS_RECTANGLE | PSS_OVAL | PSS_TRAPEZOID
| PSS_ROUNDRECT | PSS_CHAMFEREDRECT | PSS_CUSTOM | PSS_Other (code : Z).

Inductive PadType := PT_UNKNOWN | PT_PTH | PT_SMD | PT_EDGE_CONNECTOR | PT_NPTH.

Inductive DrillShape := DS_UNKNOWN | DS_CIRCLE | DS_OBLONG | DS_UNDEFINED.

Record ChamferedRectCorners := mkCorners {
  top_left : bool; top_right : bool; bottom_left : bool; bottom_right : bool }.

(** One entry of [padstack.copper_layers]. *)
Record PadStackLayer := mkPadStackLayer {
  psl_shape : PadStackShape;
  psl_size : Vector2;
  psl_trapezoid_delta : Vector2;
  psl_corner_rounding_ratio : Q;
  psl_chamfer_ratio : Q;
  psl_chamfered_corners : ChamferedRectCorners;
  psl_offset : Vector2 }.

(** A pad with the parts of its padstack the parser reads.  [pad_copper0]
    is [padstack.copper_layers[0]], the only copper layer read;
    [pad_angle] is [padstack.angle] in degrees (a kipy [Angle], which
    [normalize_angle] returns as [angle.degrees]); [pad_drill_diameter] is
    [padstack.drill.diameter], a [Vector2] (the two axes of the drill);
    [pad_id] names the pad in the board's table of custom outlines. *)
Record Pad := mkPad {
  pad_id : nat;
  pad_number : string;
  pad_position : Vector2;
  pad_layers : list BoardLayer;
  pad_angle : Q;
  pad_copper0 : PadStackLayer;
  pad_type : PadType;
  pad_drill_shape : DrillShape;
  pad_drill_diameter : Vector2;
  pad_net : string }.

(** The pad dict. *)
Record PadDict := mkPadDict {
  pd_layers : list string;
  pd_pos : mmpt;
  pd_size : mmpt;
  pd_angle : Q;
  pd_shape : string;
  pd_polygons : option (list (list mmpt));
  pd_radius : option Q;
  pd_chamfpos : option Z;
  pd_chamfratio : option Q;
  pd_type : string;
  pd_drillshape : option string;
  pd_drillsize : option mmpt;
  pd_offset : mmpt;
  pd_net : option string;
  pd_pin1 : option Z }.

(** [pad_dict['pin1'] = 1] *)
Definition set_pin1 (d : PadDict) : PadDict :=
  mkPadDict (pd_layers d) (pd_pos d) (pd_size d) (pd_angle d) (pd_shape d)
    (pd_polygons d) (pd_radius d) (pd_chamfpos d) (pd_chamfratio d) (pd_type d)
    (pd_drillshape d) (pd_drillsize d) (pd_offset d) (pd_net d) (Some 1%Z).

(** The shape-code table of [parse_pad], with its default [""]. *)
Definition pad_shape_tag (s : PadStackShape) : string :=
  match s with
  | PSS_CIRCLE => "circle"
  | PSS_OVAL => "oval"
  | PSS_RECTANGLE => "rect"
  | PSS_TRAPEZOID => "trapezoid"
  | PSS_ROUNDRECT => "roundrect"
  | PSS_CUSTOM => "custom"
  | PSS_CHAMFEREDRECT => "chamfrect"
  | _ => ""
  end.

Definition parse_chamfered_corners (c : ChamferedRectCorners) : Z :=
  let ret := 0%Z in
  let ret := if top_left c then Z.lor ret 1 else ret in
  let ret := if top_right c then Z.lor ret 2 else ret in
  let ret := if bottom_left c then Z.lor ret 4 else ret in
  let ret := if bottom_right c then Z.lor ret 8 else ret in
  ret.

Definition drill_shape_tag (s : DrillShape) : string :=
  match s with
  | DS_CIRCLE => "circle"
  | DS_OBLONG => "oblong"
  | _ => "circle"
  end.

Definition is_th (t : PadType) : bool :=
  match t with PT_PTH | PT_NPTH => true | _ => false end.

(** The four corners [parse_pad] writes for a trapezoid pad. *)
Definition trapezoid_polygon (size delta : mmpt) : list mmpt :=
  [ (fst size / 2 + snd delta / 2, snd size / 2 - fst delta / 2);
    (- fst size / 2 - snd delta / 2, snd size / 2 + fst delta / 2);
    (- fst size / 2 + snd delta / 2, - snd size / 2 - fst delta / 2);
    (fst size / 2 - snd delta / 2, - snd size / 2 + fst delta / 2) ]%Q.

(** Python's [min(a, b)]: [b] if [b < a] (i.e. not [a <= b]), else [a]. *)
Definition py_min (a b : Q) : Q := if negb (Qle_bool a b) then b else a.

Record Config := mkConfig { include_tracks : bool; include_nets : bool }.

(** ** Footprints, tracks, zones, board *)

(** A footprint with the parts the parser reads.  [fp_ref_tid] and
    [fp_value_tid] are the text objects of [reference_field.text] and
    [value_field.text] (they are also among [fp_texts_and_fields]);
    [fp_item_bbox] is [board.get_item_bounding_box(f)]; [fp_orientation] is
    [f.orientation] in degrees. *)
Record Footprint := mkFootprint {
  fp_def_id : string;
  fp_ref_tid : nat;
  fp_value_tid : nat;
  fp_position : Vector2;
  fp_orientation : Q;
  fp_layer : BoardLayer;
  fp_exclude_from_bom : bool;
  fp_item_bbox : Box2;
  fp_shapes : list Drawable;
  fp_pads : list Pad;
  fp_texts_and_fields : list Drawable }.

Record FpBBox := mkFpBBox { bb_pos : mmpt; bb_relpos : mmpt; bb_size : mmpt; bb_angle : Q }.

Record FootprintDict := mkFootprintDict {
  fd_ref : string;
  fd_bbox : FpBBox;
  fd_pads : list PadDict;
  fd_drawings : list (string * option Drawing);
  fd_layer : string }.

(** Python's [sorted(l, key=...)] with the key order [lt]: a stable
    insertion sort (an element goes after every element it is not smaller
    than). *)
Fixpoint insert_by {A} (lt : A -> A -> bool) (x : A) (l : list A) : list A :=
  match l with
  | [] => [x]
  | y :: l' => if lt x y then x :: y :: l' else y :: insert_by lt x l'
  end.

Definition sort_by {A} (lt : A -> A -> bool) (l : list A) : list A :=
  fold_left (fun acc x => insert_by lt x acc) l [].

(** [sorted(pads, key=lambda el: el[0])] *)
Definition sort_pads (pads : list (string * PadDict)) : list (string * PadDict) :=
  sort_by (fun a b => String.ltb (fst a) (fst b)) pads.

Definition pin1_names : list string := ["1"; "A"; "A1"; "P1"; "PAD1"].

Definition is_pin1_name (n : string) : bool := existsb (String.eqb n) pin1_names.

(** The pin-1 guess of [parse_footprints] on the sorted pad list. *)
Definition pin1_pad_name (sorted : list (string * PadDict)) : string :=
  match List.filter (fun p => is_pin1_name (fst p)) sorted with
  | p :: _ => fst p
  | [] => match sorted with p :: _ => fst p | [] => "" end
  end.

(** [if pads: ...] of [parse_footprints], followed by
    [pads = [p[1] for p in pads]]. *)
Definition mark_pin1 (pads : list (string * PadDict)) : list PadDict :=
  match pads with
  | [] => []
  | _ :: _ =>
      let sorted := sort_pads pads in
      let name := pin1_pad_name sorted in
      map (fun p => if String.eqb (fst p) name then set_pin1 (snd p) else snd p) sorted
  end.

(** The items of [get_tracks() + get_vias()]; a via's [drill_diameter]
    is [padstack.drill.diameter], a [Vector2]. *)
Inductive TrackItem :=
| TVia (position : Vector2) (layers : list BoardLayer) (copper0_size : Vector2)
       (masked : bool) (drill_diameter : Vector2) (net : string)
| TTrack (layer : BoardLayer) (start end_ : Vector2) (width : Z) (net : string)
| TArcTrack (layer : BoardLayer) (center : Vector2) (start_angle end_angle : Q)
            (radius : Q) (width : Z) (net : string).

Inductive TrackDict :=
| TDLine (start end_ : mmpt) (width : Q) (net : option string) (drillsize : option mmpt)
| TDArc (center : mmpt) (startangle endangle radius width : Q) (net : option string).

Record Zone := mkZone {
  z_filled : bool;
  z_rule_area : bool;
  z_layers : list BoardLayer;
  z_min_thickness : Z;
  z_filled_polygons : list (BoardLayer * list PolygonWithHoles);
  z_net : string }.

Record ZoneDict := mkZoneDict {
  zd_polygons : list (list mmpt); zd_width : Q; zd_net : option string }.

Record TitleBlock := mkTitleBlock {
  title : string; revision : string; company : string; date : string }.

(** The board snapshot: [self.footprints] and the results of the board
    queries [parse] makes. *)
Record Board := mkBoard {
  b_footprints : list Footprint;
  b_shapes : list Drawable;
  b_text : list Drawable;
  b_tracks : list TrackItem;
  b_vias : list TrackItem;
  b_zones : list Zone;
  b_nets : list string;
  b_title_block : TitleBlock }.

Record EdgesBBox := mkEdgesBBox { minx : Q; miny : Q; maxx : Q; maxy : Q }.

(** [pcbdata]; the optional sections are [None] when absent. *)
Record PcbData := mkPcbData {
  edges_bbox : EdgesBBox;
  edges : list (option Drawing);
  silkscreen_F : list (option Drawing);
  silkscreen_B : list (option Drawing);
  fabrication_F : list (option Drawing);
  fabrication_B : list (option Drawing);
  footprints : list FootprintDict;
  metadata : TitleBlock;
  font_data : string;
  tracks : option (list TrackDict * list TrackDict);
  zones : option (list ZoneDict * list ZoneDict);
  nets : option (list string) }.

(** [Component] (its [extra_fields] are always [{}]). *)
Record Component := mkComponent {
  c_ref : string; c_val : string; c_footprint : string;
  c_layer : option string; c_attr : string }.

(** Appending to [result[layer]] of a [{F_Cu: [], B_Cu: []}] dict, for
    [layer] one of the two. *)
Definition append_to_layer {A} (l : BoardLayer) (x : A) (acc : list A * list A) :=
  if layer_eqb l BL_F_Cu then ((fst acc ++ [x])%list, snd acc)
  else (fst acc, (snd acc ++ [x])%list).

Definition on_layer (l : BoardLayer) (d : Drawable) : bool := layer_eqb (d_layer d) l.

Fixpoint foldM {A B} (f : A -> B -> M A) (a : A) (l : list B) : M A :=
  match l with
  | [] => ret a
  | x :: l' => let* a' := f a x in foldM f a' l'
  end.

Fixpoint assoc_layer {A} (l : BoardLayer) (m : list (BoardLayer * A)) : option A :=
  match m with
  | [] => None
  | (k, v) :: m' => if layer_eqb k l then Some v else assoc_layer l m'
  end.

Section Parser.

Variable env : Collab.

(** [parse_polygon]: the loop over [p.outline.nodes]. *)
Fixpoint parse_polygon_nodes (ns : list PolyLineNode) : M (list mmpt) :=
  match ns with
  | [] => ret []
  | NodePoint p :: ns' =>
      let* r := parse_polygon_nodes ns' in ret (normalize_vec p :: r)
  | NodeArc _ :: ns' =>
      let* _ := log Warn "Arcs in polygons are not supported in IPC prototype" in
      parse_polygon_nodes ns'
  | NodeEmpty :: ns' => parse_polygon_nodes ns'
  end.

Definition parse_polygon (p : PolygonWithHoles) : M (list mmpt) :=
  parse_polygon_nodes (outline p).

(** The loop of [parse_text] over the rendered subshapes, returning
    [(segments, polygons)]. *)
Fixpoint parse_text_subshapes (offset : Vector2) (ss : list Subshape)
  : M (list (mmpt * mmpt) * list (list mmpt)) :=
  match ss with
  | [] => ret ([], [])
  | SubSegment a b :: ss' =>
      let* r := parse_text_subshapes offset ss' in
      ret ((normalize_vec (vadd a offset), normalize_vec (vadd b offset)) :: fst r, snd r)
  | SubPolygon p :: ss' =>
      let* pts := parse_polygon (polygon_move p offset) in
      let* r := parse_text_subshapes offset ss' in
      ret (fst r, pts :: snd r)
  | SubOther :: ss' => parse_text_subshapes offset ss'
  end.

Definition parse_text (tid : nat) (offset : Vector2) (stroke_width_nm : Z) : M Drawing :=
  let* v := get_text_value tid in
  let* _ := (if has_dollar v
             then set_text_value tid (expand_text_variables env v)
             else ret tt) in
  let* v' := get_text_value tid in
  let* r := parse_text_subshapes offset (get_text_as_shapes env tid v') in
  match fst r with
  | _ :: _ => ret (DrTextPath (normalize_Z stroke_width_nm) (create_path env (fst r)))
  | [] => ret (DrTextPolys (snd r))
  end.

Definition parse_shape (d : Drawable) : M (option Drawing) :=
  let width := normalize_Z (d_stroke_width d) in
  match d_kind d with
  | KSegment a b => ret (Some (DrSegment (normalize_vec a) (normalize_vec b) width))
  | KCircle c r filled =>
      ret (Some (DrCircle (normalize_vec c) (normalize r) width (bool_to_int filled)))
  | KArc c r a1 a2 =>
      ret (Some (DrArc (normalize_vec c) (normalize r) (option_map (degrees env) a1)
                       (option_map (degrees env) a2) width))
  | KPolygon ps filled =>
      let* polys := mapM parse_polygon ps in
      ret (Some (DrPolygon (0, 0)%Z 0 polys (if filled then None else Some 0%Z)
                           (if filled then None else Some width)))
  | KBezier a c1 c2 b =>
      ret (Some (DrCurve (normalize_vec a) (normalize_vec c1) (normalize_vec c2)
                         (normalize_vec b) width))
  | KRectangle tl br filled =>
      let start := normalize_vec tl in
      let end_ := normalize_vec br in
      let points := [start; (fst end_, snd start); end_; (fst start, snd end_)] in
      ret (Some (DrPolygon (0, 0)%Z 0 [points] (Some (bool_to_int filled)) (Some width)))
  | KText tid pos sw => let* t := parse_text tid pos sw in ret (Some t)
  | KTextBox tid tl sw => let* t := parse_text tid tl sw in ret (Some t)
  | KField tid pos sw => let* t := parse_text tid pos sw in ret (Some t)
  | KUnsupported name =>
      let* _ := log Info ("Unsupported shape " ++ name ++ ", skipping") in
      ret None
  end.

Definition parse_pad (cfg : Config) (pad : Pad) : M (option PadDict) :=
  let layers := ((if layer_in BL_F_Cu (pad_layers pad) then ["F"] else [])
                ++ (if layer_in BL_B_Cu (pad_layers pad) then ["B"] else []))%list in
  let pos := normalize_vec (pad_position pad) in
  let angle := pad_angle pad in
  let stack_layer := pad_copper0 pad in
  let size := normalize_vec (psl_size stack_layer) in
  let shape := pad_shape_tag (psl_shape stack_layer) in
  if String.eqb shape "" then
    let* _ := log Info "Unsupported pad shape %s, skipping." in ret None
  else
  let* polygons :=
    (if String.eqb shape "custom" then
       let* polygon := get_pad_outline (pad_id pad) in
       match polygon with
       | Some p =>
           let* pts := parse_polygon (polygon_move p (vneg (pad_position pad))) in
           ret (Some [pts])
       | None =>
           let* _ := log Warn "Custom pad shape could not be retrieved for pad %s" in
           ret (Some [])
       end
     else if String.eqb shape "trapezoid" then
       let delta := normalize_vec (psl_trapezoid_delta stack_layer) in
       ret (Some [trapezoid_polygon size delta])
     else ret None) in
  let is_chamf := String.eqb shape "chamfrect" in
  ret (Some (mkPadDict
    layers pos size angle
    (if String.eqb shape "trapezoid" then "custom" else shape)
    polygons
    (if String.eqb shape "roundrect" || is_chamf
     then Some (psl_corner_rounding_ratio stack_layer * py_min (fst size) (snd size))%Q
     else None)
    (if is_chamf then Some (parse_chamfered_corners (psl_chamfered_corners stack_layer))
     else None)
    (if is_chamf then Some (psl_chamfer_ratio stack_layer) else None)
    (if is_th (pad_type pad) then "th" else "smd")
    (if is_th (pad_type pad) then Some (drill_shape_tag (pad_drill_shape pad)) else None)
    (if is_th (pad_type pad) then Some (normalize_vec (pad_drill_diameter pad)) else None)
    (normalize_vec (psl_offset stack_layer))
    (if include_nets cfg then Some (pad_net pad) else None)
    None)).

(** The pad loop of [parse_footprints]: [(p.number, pad_dict)] for every
    pad [parse_pad] translates. *)
Fixpoint collect_pads (cfg : Config) (ps : list Pad) : M (list (string * PadDict)) :=
  match ps with
  | [] => ret []
  | p :: ps' =>
      let* o := parse_pad cfg p in
      let* r := collect_pads cfg ps' in
      ret (match o with Some d => (pad_number p, d) :: r | None => r end)
  end.

(** The "graphical drawings" block of [parse_footprints]. *)
Definition footprint_copper_drawings (f : Footprint) : M (list (string * option Drawing)) :=
  mapM (fun d => let* dr := parse_shape d in
                 ret (if layer_eqb (d_layer d) BL_F_Cu then "F" else "B", dr))
       (List.filter (fun d => layer_in (d_layer d) [BL_F_Cu; BL_B_Cu]) (fp_shapes f)).

(** One iteration of [parse_footprints]. *)
Definition parse_footprint (cfg : Config) (f : Footprint) : M FootprintDict :=
  let footprint_rect := box_move (fp_item_bbox f) (vneg (fp_position f)) in
  let bbox := mkFpBBox (normalize_vec (fp_position f)) (normalize_vec (box_pos footprint_rect))
                       (normalize_vec (box_size footprint_rect)) (fp_orientation f) in
  let* drawings := footprint_copper_drawings f in
  let* pads := collect_pads cfg (fp_pads f) in
  let* ref := get_text_value (fp_ref_tid f) in
  ret (mkFootprintDict ref bbox (mark_pin1 pads) drawings
         (if layer_eqb (fp_layer f) BL_F_Cu then "F" else "B")).

Definition parse_footprints (cfg : Config) (fps : list Footprint) : M (list FootprintDict) :=
  mapM (parse_footprint cfg) fps.

Definition add_track (cfg : Config) (acc : list TrackDict * list TrackDict) (t : TrackItem)
  : list TrackDict * list TrackDict :=
  match t with
  | TVia pos layers size0 masked drill net =>
      let track_dict := TDLine (normalize_vec pos) (normalize_vec pos) (normalize_Z (vx size0))
                               (Some net) (if masked then Some (normalize_vec drill) else None) in
      let acc := if layer_in BL_F_Cu layers then append_to_layer BL_F_Cu track_dict acc else acc in
      if layer_in BL_B_Cu layers then append_to_layer BL_B_Cu track_dict acc else acc
  | TTrack l a b w net =>
      if layer_in l [BL_F_Cu; BL_B_Cu] then
        append_to_layer l (TDLine (normalize_vec a) (normalize_vec b) (normalize_Z w)
                                  (if include_nets cfg then Some net else None) None) acc
      else acc
  | TArcTrack l c a1 a2 r w net =>
      if layer_in l [BL_F_Cu; BL_B_Cu] then
        append_to_layer l (TDArc (normalize_vec c) a1 a2 (normalize r) (normalize_Z w)
                                 (if include_nets cfg then Some net else None)) acc
      else acc
  end.

(** [parse_tracks]: the result [{'F': ..., 'B': ...}] as a pair. *)
Definition parse_tracks (cfg : Config) (ts : list TrackItem) : list TrackDict * list TrackDict :=
  fold_left (add_track cfg) ts ([], []).

Definition parse_zone (cfg : Config) (acc : list ZoneDict * list ZoneDict) (z : Zone)
  : M (list ZoneDict * list ZoneDict) :=
  if negb (z_filled z) || z_rule_area z then ret acc
  else
    let layers := List.filter (fun l => layer_in l [BL_F_Cu; BL_B_Cu]) (z_layers z) in
    let width := normalize_Z (z_min_thickness z) in
    foldM (fun acc l =>
             match assoc_layer l (z_filled_polygons z) with
             | None => ret acc
             | Some ps =>
                 let* polys := mapM parse_polygon ps in
                 ret (append_to_layer l
                        (mkZoneDict polys width (if include_nets cfg then Some (z_net z) else None))
                        acc)
             end) acc layers.

Definition parse_zones (cfg : Config) (zs : list Zone) : M (list ZoneDict * list ZoneDict) :=
  foldM (parse_zone cfg) ([], []) zs.

(** One iteration of the edge loop of [parse_edges] on [(edges, bbox)].
    [d_bbox d] stands for [d.bounding_box()]: a drawable whose class has
    no [bounding_box] method (a plain [BoardShape]) makes the code raise
    at this call, a run that returns nothing and that this step does not
    describe. *)
Definition edges_step (acc : list (option Drawing) * option Box2) (d : Drawable)
  : M (list (option Drawing) * option Box2) :=
  if layer_eqb (d_layer d) BL_Edge_Cuts then
    let* e := parse_shape d in
    ret ((fst acc ++ [e])%list,
         match snd acc with
         | None => Some (d_bbox d)
         | Some b => Some (box_merge b (d_bbox d))
         end)
  else ret acc.

(** [parse_edges]: also returns [drawings], which it extends in place with
    every footprint's shapes (the caller's list). *)
Definition parse_edges (fps : list Footprint) (drawings : list Drawable)
  : M (list (option Drawing) * option Box2 * list Drawable) :=
  let drawings := (drawings ++ concat (map fp_shapes fps))%list in
  let* r := foldM edges_step ([], None) drawings in
  ret (fst r, snd r, drawings).

Definition footprint_to_component (f : Footprint) : M Component :=
  let* r := get_text_value (fp_ref_tid f) in
  let* v := get_text_value (fp_value_tid f) in
  ret (mkComponent r v (fp_def_id f)
         (if layer_eqb (fp_layer f) BL_F_Cu then Some "F"
          else if layer_eqb (fp_layer f) BL_B_Cu then Some "B" else None)
         (if fp_exclude_from_bom f then "Virtual" else "Normal")).

(** [parse]: [None] stands for the [(None, None)] it returns when there is
    no outline. *)
Definition parse (cfg : Config) (board : Board) : M (option (PcbData * list Component)) :=
  let fps := b_footprints board in
  let drawings := (b_shapes board ++ b_text board
                   ++ concat (map fp_texts_and_fields fps))%list in
  let* r := parse_edges fps drawings in
  match r with
  | (edges, None, _) =>
      let* _ := log Error ("Please draw pcb outline on the edges "
                           ++ "layer on sheet or any footprint before "
                           ++ "generating BOM.") in
      ret None
  | (edges, Some bb, drawings) =>
      let bbox := mkEdgesBBox (normalize_Z (vx (box_pos bb))) (normalize_Z (vy (box_pos bb)))
                    (normalize_Z (vx (box_pos bb) + vx (box_size bb)))
                    (normalize_Z (vy (box_pos bb) + vy (box_size bb))) in
      let* silk_f := mapM parse_shape (List.filter (on_layer BL_F_SilkS) drawings) in
      let* silk_b := mapM parse_shape (List.filter (on_layer BL_B_SilkS) drawings) in
      let* fab_f := mapM parse_shape (List.filter (on_layer BL_F_Fab) drawings) in
      let* fab_b := mapM parse_shape (List.filter (on_layer BL_B_Fab) drawings) in
      let* fp_dicts := parse_footprints cfg fps in
      let* tz := (if include_tracks cfg then
                    let tr := parse_tracks cfg (b_tracks board ++ b_vias board)%list in
                    let* zs := parse_zones cfg (b_zones board) in
                    ret (Some tr, Some zs)
                  else ret (None, None)) in
      let net_names := if include_nets cfg then Some (sort_by String.ltb (b_nets board))
                       else None in
      let* components := mapM footprint_to_component fps in
      ret (Some (mkPcbData bbox edges silk_f silk_b fab_f fab_b fp_dicts
                   (b_title_block board) (get_parsed_font env) (fst tz) (snd tz) net_names,
                 components))
  end.

End Parser.

(** ** Observations on runs of [M] *)

Definition val {A} (m : M A) (s : Store) : A := fst (fst (m s)).
Definition post {A} (m : M A) (s : Store) : Store := snd (fst (m s)).
Definition logs {A} (m : M A) (s : Store) : list LogEntry := snd (m s).

(** Nodes of an outline that carry a point, and the arcs among them. *)
Definition outline_points (ns : list PolyLineNode) : list Vector2 :=
  flat_map (fun n => match n with NodePoint p => [p] | _ => [] end) ns.

Definition count_arcs (ns : list PolyLineNode) : nat :=
  length (List.filter (fun n => match n with NodeArc _ => true | _ => false end) ns).

Definition arc_warning : LogEntry :=
  mkLog Warn "Arcs in polygons are not supported in IPC prototype".

(** Componentwise [Qeq] on normalized points. *)
Definition pt_eq (p q : mmpt) : Prop := (fst p == fst q)%Q /\ (snd p == snd q)%Q.

(** The corner of the claim for the signs [a] (of [size.x]) and [c] (of
    [size.y]): [(a*size.x/2 + s*delta.y/2, c*size.y/2 - s*delta.x/2)] with
    [s = a*c], the [delta.y] and [delta.x] terms having opposite signs. *)
Definition trapezoid_corner (size delta : mmpt) (a c : Q) : mmpt :=
  (a * fst size / 2 + (a * c) * snd delta / 2, c * snd size / 2 - (a * c) * fst delta / 2)%Q.

(** The four sign combinations of [(size.x, size.y)], in the order the
    code lists the corners. *)
Definition sign_combinations : list (Q * Q) := [(1, 1); (-1, 1); (-1, -1); (1, -1)]%Q.

Definition pad_supported (p : Pad) : bool :=
  negb (String.eqb (pad_shape_tag (psl_shape (pad_copper0 p))) "").

Definition supported_shape_codes : list PadStackShape :=
  [PSS_CIRCLE; PSS_OVAL; PSS_RECTANGLE; PSS_TRAPEZOID; PSS_ROUNDRECT; PSS_CUSTOM;
   PSS_CHAMFEREDRECT].

Definition with_pads (f : Footprint) (ps : list Pad) : Footprint :=
  mkFootprint (fp_def_id f) (fp_ref_tid f) (fp_value_tid f) (fp_position f)
    (fp_orientation f) (fp_layer f) (fp_exclude_from_bom f) (fp_item_bbox f)
    (fp_shapes f) ps (fp_texts_and_fields f).

Definition is_marked (d : PadDict) : bool :=
  match pd_pin1 d with Some z => Z.eqb z 1 | None => false end.

(** Every drawing collected for the outline: board shapes, board texts,
    footprint texts and fields, footprint shapes, on [Edge.Cuts]. *)
Definition edge_drawings (board : Board) : list Drawable :=
  List.filter (on_layer BL_Edge_Cuts)
    (b_shapes board ++ b_text board ++ concat (map fp_texts_and_fields (b_footprints board))
     ++ concat (map fp_shapes (b_footprints board)))%list.

Definition is_min (m : Z) (l : list Z) : Prop := In m l /\ Forall (fun x => (m <= x)%Z) l.
Definition is_max (m : Z) (l : list Z) : Prop := In m l /\ Forall (fun x => (x <= m)%Z) l.

(** One rewrite of a text value by [parse_text]. *)
Definition expand_step (env : Collab) (v w : string) : Prop :=
  has_dollar v = true /\ w = expand_text_variables env v.

(** The bounding-box half of [edges_step], and the merge of a list of
    boxes into an optional accumulated box. *)
Definition bbox_step (acc : option Box2) (d : Drawable) : option Box2 :=
  if layer_eqb (d_layer d) BL_Edge_Cuts then
    Some (match acc with None => d_bbox d | Some b => box_merge b (d_bbox d) end)
  else acc.

Definition merge_opt (acc : option Box2) (b : Box2) : option Box2 :=
  Some (match acc with None => b | Some a => box_merge a b end).

Definition opt_list {A} (o : option A) : list A :=
  match o with Some a => [a] | None => [] end.

(** Near and far coordinates of a box. *)
Definition lo_x (b : Box2) : Z := vx (box_pos b).
Definition lo_y (b : Box2) : Z := vy (box_pos b).
Definition hi_x (b : Box2) : Z := vx (box_pos b) + vx (box_size b).
Definition hi_y (b : Box2) : Z := vy (box_pos b) + vy (box_size b).

(** The store changes the claim allows: every text value moves by zero or
    more expansions of a value containing [$]; the pad outlines stay. *)
Definition frame (env : Collab) (s s' : Store) : Prop :=
  (forall id, clos_refl_trans string (expand_step env) (st_text s id) (st_text s' id)) /\
  st_pad_outline s' = st_pad_outline s.

(** ** Concrete inputs *)

(** Collaborators that leave text as it is and render nothing. *)
Definition ex_env : Collab := mkCollab (fun v => v) (fun _ _ => []) (fun _ => "") (fun q => q) "".

Definition ex_store : Store := mkStore (fun _ => "REF") (fun _ => None).

Definition ex_cfg : Config := mkConfig false false.

Definition ex_psl (sh : PadStackShape) : PadStackLayer :=
  mkPadStackLayer sh (mkVec 2000000 1000000) (mkVec 0 0) 0 0
    (mkCorners false false false false) (mkVec 0 0).

Definition ex_pad (n : string) (sh : PadStackShape) : Pad :=
  mkPad 0 n (mkVec 0 0) [BL_F_Cu] 0 (ex_psl sh) PT_SMD DS_CIRCLE (mkVec 0 0) "".

Definition ex_box : Box2 := mkBox (mkVec 0 0) (mkVec 2000000 1000000).

Definition ex_fp (l : BoardLayer) (shapes : list Drawable) (ps : list Pad) : Footprint :=
  mkFootprint "R_0603" 0 1 (mkVec 0 0) 0 l false ex_box shapes ps [].

Definition ex_board (fps : list Footprint) (shapes : list Drawable) : Board :=
  mkBoard fps shapes [] [] [] [] [] (mkTitleBlock "" "" "" "").

(** A drawable of a class [parse_shape] has no branch for. *)
Definition ex_unsupported (l : BoardLayer) : Drawable :=
  mkDrawable l (KUnsupported "BoardShape") 0 ex_box.

Definition ex_edge_rect : Drawable :=
  mkDrawable BL_Edge_Cuts (KRectangle (mkVec 0 0) (mkVec 2000000 1000000) false) 100000 ex_box.

Definition ex_poly : PolygonWithHoles :=
  mkPolygon [NodePoint (mkVec 0 0);
             NodeArc (mkArc (mkVec 1000000 0) (mkVec 1500000 500000) (mkVec 1000000 1000000));
             NodePoint (mkVec 0 1000000)] [].

Definition is_none {A} (o : option A) : bool := match o with None => true | Some _ => false end.

Definition ex_th_pad : Pad :=
  mkPad 0 "1" (mkVec 0 0) [BL_F_Cu; BL_B_Cu] 0 (ex_psl PSS_CIRCLE) PT_PTH DS_OBLONG (mkVec 800000 800000) "GND".

Definition ex_store_outline : Store := mkStore (fun _ => "REF") (fun _ => Some ex_poly).

(** A board with an outline rectangle, one front footprint off copper
    carrying a silkscreen segment, and two nets. *)
Definition ex_board_full : Board :=
  mkBoard [ex_fp BL_F_SilkS
             [mkDrawable BL_F_SilkS (KSegment (mkVec 0 0) (mkVec 1000000 0)) 100000 ex_box] []]
          [ex_edge_rect] [] [] [] [] ["b"; "a"] (mkTitleBlock "" "" "" "").

(** ** Helpers for the further properties *)

(** Whether [parse_tracks] files an item under front / back copper. *)
Definition track_on_F (t : TrackItem) : bool :=
  match t with
  | TVia _ ls _ _ _ _ => layer_in BL_F_Cu ls
  | TTrack l _ _ _ _ | TArcTrack l _ _ _ _ _ _ => layer_eqb l BL_F_Cu
  end.

Definition track_on_B (t : TrackItem) : bool :=
  match t with
  | TVia _ ls _ _ _ _ => layer_in BL_B_Cu ls
  | TTrack l _ _ _ _ | TArcTrack l _ _ _ _ _ _ => layer_eqb l BL_B_Cu
  end.

(** The zones [parse_zones] does not skip. *)
Definition zone_kept (z : Zone) : bool := z_filled z && negb (z_rule_area z).

(** What an entry of [parse_zones] under layer [l] comes from: a kept zone
    of the input on [l] with filled polygons for [l]. *)
Definition zone_entry_ok (cfg : Config) (zs : list Zone) (l : BoardLayer) (e : ZoneDict) : Prop :=
  exists z ps, In z zs /\ zone_kept z = true /\ In l (z_layers z) /\
    assoc_layer l (z_filled_polygons z) = Some ps /\
    zd_polygons e = map (fun p => map normalize_vec (outline_points (outline p))) ps /\
    zd_width e = normalize_Z (z_min_thickness z) /\
    zd_net e = (if include_nets cfg then Some (z_net z) else None).

(** The segments and polygons [parse_text] collects from rendered shapes. *)
Definition text_segments (offset : Vector2) (ss : list Subshape) : list (mmpt * mmpt) :=
  flat_map (fun x => match x with
                     | SubSegment a b => [(normalize_vec (vadd a offset), normalize_vec (vadd b offset))]
                     | _ => []
                     end) ss.

Definition text_polygons (offset : Vector2) (ss : list Subshape) : list (list mmpt) :=
  flat_map (fun x => match x with
                     | SubPolygon p => [map (fun v => normalize_vec (vadd v offset))
                                            (outline_points (outline p))]
                     | _ => []
                     end) ss.

(** The value a text object has once [parse_text] has expanded it. *)
Definition rendered_value (env : Collab) (v : string) : string :=
  if has_dollar v then expand_text_variables env v else v.

(** Every drawing [parse] ends up holding: board shapes, board texts,
    footprint texts and fields, then (added by [parse_edges]) footprint
    shapes. *)
Definition all_drawings (board : Board) : list Drawable :=
  (b_shapes board ++ b_text board ++ concat (map fp_texts_and_fields (b_footprints board))
   ++ concat (map fp_shapes (b_footprints board)))%list.

Definition no_outline_msg : string :=
  "Please draw pcb outline on the edges layer on sheet or any footprint before generating BOM.".

(** ** Binary64 rounding

    Round-to-nearest of a normal result moves it by at most [2^-53] of its
    magnitude; the conversion of an integer and the products of [normalize]
    and of its reverse scale are such roundings. *)

Module F64_facts.
Import SpecFloat.
Import F64.






















End F64_facts.




(** ** General lemmas *)

Lemma layer_eqb_spec (a b : BoardLayer) : layer_eqb a b = true <-> a = b.
Proof.
  destruct a, b; simpl; split; intro H; try discriminate; try reflexivity.
  - apply Z.eqb_eq in H; subst; reflexivity.
  - injection H as ->; apply Z.eqb_refl.
Qed.

Lemma bind_run {A B} (m : M A) (k : A -> M B) s :
  bind m k s = (val (k (val m s)) (post m s), post (k (val m s)) (post m s),
                (logs m s ++ logs (k (val m s)) (post m s))%list).
Proof.
  unfold bind, val, post, logs.
  destruct (m s) as [[a s1] w1]; simpl.
  destruct (k a s1) as [[b s2] w2]; reflexivity.
Qed.

Lemma run_eta {A} (m : M A) s : m s = (val m s, post m s, logs m s).
Proof. unfold val, post, logs; destruct (m s) as [[a s1] w]; reflexivity. Qed.

Lemma bind_val {A B} (m : M A) (k : A -> M B) s :
  val (bind m k) s = val (k (val m s)) (post m s).
Proof. unfold val at 1; rewrite bind_run; reflexivity. Qed.

Lemma bind_post {A B} (m : M A) (k : A -> M B) s :
  post (bind m k) s = post (k (val m s)) (post m s).
Proof. unfold post at 1; rewrite bind_run; reflexivity. Qed.

Lemma bind_logs {A B} (m : M A) (k : A -> M B) s :
  logs (bind m k) s = (logs m s ++ logs (k (val m s)) (post m s))%list.
Proof. unfold logs at 1; rewrite bind_run; reflexivity. Qed.

Lemma parse_polygon_nodes_run ns s :
  parse_polygon_nodes ns s =
  (map normalize_vec (outline_points ns), s, repeat arc_warning (count_arcs ns)).
Proof.
  induction ns as [|n ns IH]; [reflexivity|].
  destruct n; cbn [parse_polygon_nodes]; try rewrite bind_run; unfold val, post, logs;
    rewrite ?IH; simpl; rewrite ?IH, ?app_nil_r; reflexivity.
Qed.

(** Computations that leave the store as they found it. *)
Definition preserves {A} (m : M A) : Prop := forall s, post m s = s.

Lemma preserves_ret {A} (a : A) : preserves (ret a).
Proof. intro; reflexivity. Qed.

Lemma preserves_log l msg : preserves (log l msg).
Proof. intro; reflexivity. Qed.

Lemma preserves_get_text_value tid : preserves (get_text_value tid).
Proof. intro; reflexivity. Qed.

Lemma preserves_get_pad_outline pid : preserves (get_pad_outline pid).
Proof. intro; reflexivity. Qed.

Lemma preserves_bind {A B} (m : M A) (k : A -> M B) :
  preserves m -> (forall a, preserves (k a)) -> preserves (bind m k).
Proof. intros Hm Hk s; rewrite bind_post, Hk, Hm; reflexivity. Qed.

Lemma preserves_parse_polygon p : preserves (parse_polygon p).
Proof. intro s; unfold post, parse_polygon; rewrite parse_polygon_nodes_run; reflexivity. Qed.

Lemma preserves_mapM {A B} (f : A -> M B) l :
  (forall x, preserves (f x)) -> preserves (mapM f l).
Proof.
  intro Hf; induction l as [|x l IH]; cbn [mapM]; [apply preserves_ret|].
  apply preserves_bind; [apply Hf|intro; apply preserves_bind; [apply IH|intro; apply preserves_ret]].
Qed.

Create HintDb preserves_db.
#[local] Hint Resolve preserves_ret preserves_log preserves_get_text_value
  preserves_get_pad_outline preserves_parse_polygon preserves_mapM : preserves_db.

Ltac solve_preserves :=
  repeat first
    [ apply preserves_bind; [|intro]
    | progress auto with preserves_db
    | match goal with
      | |- preserves (match ?x with _ => _ end) => destruct x
      | |- preserves (if ?b then _ else _) => destruct b
      end ].

Lemma preserves_parse_pad cfg p : preserves (parse_pad cfg p).
Proof. unfold parse_pad; solve_preserves. Qed.

Lemma preserves_val_bind {A B} (m : M A) (k : A -> M B) s :
  preserves m -> val (bind m k) s = val (k (val m s)) s.
Proof. intro Hm; rewrite bind_val, Hm; reflexivity. Qed.

Lemma parse_pad_val cfg p s :
  (pad_supported p = false -> val (parse_pad cfg p) s = None) /\
  (pad_supported p = true -> exists d, val (parse_pad cfg p) s = Some d /\ pd_pin1 d = None).
Proof.
  unfold pad_supported, parse_pad.
  destruct (String.eqb (pad_shape_tag (psl_shape (pad_copper0 p))) "") eqn:E;
    cbn [negb]; split; intro Hs; try discriminate.
  - reflexivity.
  - rewrite bind_val; eexists; split; reflexivity.
Qed.

Lemma collect_pads_val cfg ps s :
  val (collect_pads cfg ps) s =
  flat_map (fun p => match val (parse_pad cfg p) s with
                     | Some d => [(pad_number p, d)] | None => [] end) ps.
Proof.
  induction ps as [|p ps IH]; [reflexivity|].
  cbn [collect_pads flat_map].
  rewrite preserves_val_bind by apply preserves_parse_pad.
  rewrite bind_val, IH.
  destruct (val (parse_pad cfg p) s); reflexivity.
Qed.

Lemma preserves_collect_pads cfg ps : preserves (collect_pads cfg ps).
Proof.
  induction ps as [|p ps IH]; cbn [collect_pads]; [apply preserves_ret|].
  apply preserves_bind; [apply preserves_parse_pad|intro].
  apply preserves_bind; [apply IH|intro; apply preserves_ret].
Qed.

(** ** The stable insertion sort *)

Section SortBy.

Context {A : Type} (lt : A -> A -> bool) (le : A -> A -> Prop).
Hypothesis lt_le : forall x y, lt x y = true -> le x y.
Hypothesis not_lt_le : forall x y, lt x y = false -> le y x.

Lemma insert_by_perm x l : Permutation (insert_by lt x l) (x :: l).
Proof.
  induction l as [|y l IH]; cbn [insert_by]; [reflexivity|].
  destruct (lt x y); [reflexivity|].
  rewrite IH; apply perm_swap.
Qed.

Lemma sort_by_perm_acc l acc :
  Permutation (fold_left (fun acc x => insert_by lt x acc) l acc) (l ++ acc).
Proof.
  revert acc; induction l as [|x l IH]; intro acc; cbn [fold_left app]; [reflexivity|].
  rewrite IH, insert_by_perm; symmetry; apply Permutation_middle.
Qed.

Lemma sort_by_perm l : Permutation (sort_by lt l) l.
Proof. unfold sort_by; rewrite sort_by_perm_acc, app_nil_r; reflexivity. Qed.

Lemma insert_by_sorted x l : Sorted le l -> Sorted le (insert_by lt x l).
Proof.
  induction l as [|y l IH]; intro Hs; cbn [insert_by].
  - repeat constructor.
  - destruct (lt x y) eqn:Exy.
    + constructor; [exact Hs|constructor; apply lt_le; exact Exy].
    + apply Sorted_inv in Hs as [Hl Hh].
      constructor; [apply IH; exact Hl|].
      destruct l as [|z l]; cbn [insert_by].
      * constructor; apply not_lt_le; exact Exy.
      * destruct (lt x z); constructor.
        -- apply not_lt_le; exact Exy.
        -- apply HdRel_inv in Hh; exact Hh.
Qed.

Lemma sort_by_sorted l : Sorted le (sort_by lt l).
Proof.
  unfold sort_by.
  assert (H : forall acc, Sorted le acc ->
                Sorted le (fold_left (fun acc x => insert_by lt x acc) l acc)).
  { induction l as [|x l IH]; intros acc Hacc; [exact Hacc|].
    apply IH, insert_by_sorted, Hacc. }
  apply H; constructor.
Qed.

End SortBy.

Lemma string_ltb_le x y : String.ltb x y = true -> String.le x y.
Proof.
  unfold String.ltb, String.le, String.leb.
  destruct (String.compare x y); intro H; try discriminate; exact I.
Qed.

Lemma string_not_ltb_le x y : String.ltb x y = false -> String.le y x.
Proof.
  unfold String.ltb, String.le, String.leb.
  rewrite (String.compare_antisym y x).
  destruct (String.compare x y); intro H; try discriminate; exact I.
Qed.

Definition key_le (a b : string * PadDict) : Prop := String.le (fst a) (fst b).

Lemma sort_pads_perm pads : Permutation (sort_pads pads) pads.
Proof. apply sort_by_perm. Qed.

Lemma sort_pads_sorted pads : Sorted key_le (sort_pads pads).
Proof.
  apply sort_by_sorted; intros x y H; unfold key_le.
  - apply string_ltb_le, H.
  - apply string_not_ltb_le, H.
Qed.

(** ** Polygon extraction *)

(** C7: [parse_polygon] returns the normalized points of the outline's
    point nodes in their original order, emits one warning per arc node,
    takes no point from arc nodes, never fails and leaves the store alone;
    a polygon drawable whose outlines contain arcs is still emitted. *)
Theorem parse_polygon_points_in_order (p : PolygonWithHoles) (s : Store) :
  parse_polygon p s = (map normalize_vec (outline_points (outline p)), s,
                       repeat arc_warning (count_arcs (outline p))) /\
  (forall env d ps filled, d_kind d = KPolygon ps filled ->
     val (parse_shape env d) s =
     Some (DrPolygon (0, 0)%Z 0 (map (fun q => map normalize_vec (outline_points (outline q))) ps)
                     (if filled then None else Some 0%Z)
                     (if filled then None else Some (normalize_Z (d_stroke_width d))))).
Proof.
  split; [apply parse_polygon_nodes_run|].
  intros env d ps filled Hk.
  unfold parse_shape; rewrite Hk, bind_val.
  assert (Hm : forall s', val (mapM parse_polygon ps) s' =
                 map (fun q => map normalize_vec (outline_points (outline q))) ps
                 /\ post (mapM parse_polygon ps) s' = s').
  { clear Hk; induction ps as [|q ps IH]; intro s'; [split; reflexivity|].
    cbn [mapM]; rewrite bind_val, bind_post.
    assert (Hq : val (parse_polygon q) s' = map normalize_vec (outline_points (outline q))
                 /\ post (parse_polygon q) s' = s').
    { unfold val, post, parse_polygon; rewrite parse_polygon_nodes_run; split; reflexivity. }
    destruct Hq as [-> ->].
    rewrite bind_val, bind_post; destruct (IH s') as [-> ->]; split; reflexivity. }
  destruct (Hm s) as [-> _]; reflexivity.
Qed.

(** ** Pads *)

(** C3: a pad whose padstack shape is trapezoid yields a pad dict with
    shape ["custom"] whose single polygon is the quad of corners
    [(+-size.x/2 +- delta.y/2, +-size.y/2 -+ delta.x/2)] over the four sign
    combinations; for [size = (2, 1)] mm and [delta = (0, 0)] these are
    [(+-1, +-0.5)]. *)
Theorem parse_pad_trapezoid_corners (cfg : Config) (pad : Pad) (s : Store)
  (H : psl_shape (pad_copper0 pad) = PSS_TRAPEZOID) :
  exists d, val (parse_pad cfg pad) s = Some d /\ pd_shape d = "custom" /\
    exists corners, pd_polygons d = Some [corners] /\
      Forall2 pt_eq corners
        (map (fun ac => trapezoid_corner (normalize_vec (psl_size (pad_copper0 pad)))
                          (normalize_vec (psl_trapezoid_delta (pad_copper0 pad)))
                          (fst ac) (snd ac)) sign_combinations) /\
      (psl_size (pad_copper0 pad) = mkVec 2000000 1000000 ->
       psl_trapezoid_delta (pad_copper0 pad) = mkVec 0 0 ->
       Forall2 pt_eq corners [(1, 1 # 2); (-1, 1 # 2); (-1, Qmake (-1) 2); (1, Qmake (-1) 2)]%Q).
Proof.
  unfold parse_pad; rewrite H; cbn -[normalize_vec].
  eexists; split; [reflexivity|]; split; [reflexivity|].
  eexists; split; [reflexivity|].
  split.
  - unfold trapezoid_polygon, trapezoid_corner, sign_combinations; cbn [map fst snd].
    do 4 (apply List.Forall2_cons; [split; cbn [fst snd]; field|]); apply List.Forall2_nil.
  - intros Hs Hd; rewrite Hs, Hd.
    unfold trapezoid_polygon.
    do 4 (apply List.Forall2_cons; [split; vm_compute; reflexivity|]); apply List.Forall2_nil.
Qed.

Lemma parse_footprint_pads env cfg f s :
  fd_pads (val (parse_footprint env cfg f) s) =
  mark_pin1 (val (collect_pads cfg (fp_pads f)) (post (footprint_copper_drawings env f) s)).
Proof.
  unfold parse_footprint; rewrite bind_val, bind_val, bind_val; reflexivity.
Qed.

Lemma mark_pin1_length pads : length (mark_pin1 pads) = length pads.
Proof.
  destruct pads as [|p pads]; [reflexivity|].
  unfold mark_pin1; rewrite length_map.
  apply Permutation_length, sort_pads_perm.
Qed.

Lemma collect_pads_filter cfg ps s :
  val (collect_pads cfg ps) s = val (collect_pads cfg (List.filter pad_supported ps)) s.
Proof.
  rewrite !collect_pads_val.
  induction ps as [|p ps IH]; [reflexivity|].
  cbn [List.filter flat_map].
  destruct (pad_supported p) eqn:Hp.
  - cbn [flat_map]; rewrite IH; reflexivity.
  - destruct (parse_pad_val cfg p s) as [Hn _]; rewrite (Hn Hp); exact IH.
Qed.

Lemma collect_pads_length cfg ps s :
  length (val (collect_pads cfg ps) s) = length (List.filter pad_supported ps).
Proof.
  rewrite collect_pads_val.
  induction ps as [|p ps IH]; [reflexivity|].
  cbn [List.filter flat_map].
  destruct (pad_supported p) eqn:Hp; destruct (parse_pad_val cfg p s) as [Hn Hs].
  - destruct (Hs Hp) as [d [-> _]]; cbn; rewrite IH; reflexivity.
  - rewrite (Hn Hp); exact IH.
Qed.

(** C4: a pad whose padstack shape code is outside the shape-code table
    makes [parse_pad] return [None] with exactly one info-level log entry and
    no other effect, and the footprint's pad list is the one of the
    footprint without its unsupported pads (one entry per supported pad). *)
Theorem parse_pad_unsupported_omitted (cfg : Config) (pad : Pad) (s : Store)
  (H : ~ In (psl_shape (pad_copper0 pad)) supported_shape_codes) :
  parse_pad cfg pad s = (None, s, [mkLog Info "Unsupported pad shape %s, skipping."]) /\
  pad_supported pad = false /\
  (forall env f,
     fd_pads (val (parse_footprint env cfg f) s) =
     fd_pads (val (parse_footprint env cfg
                     (with_pads f (List.filter pad_supported (fp_pads f)))) s) /\
     length (fd_pads (val (parse_footprint env cfg f) s)) =
     length (List.filter pad_supported (fp_pads f))).
Proof.
  assert (Ht : pad_shape_tag (psl_shape (pad_copper0 pad)) = "").
  { destruct (psl_shape (pad_copper0 pad)); try reflexivity;
      exfalso; apply H; cbn; tauto. }
  split; [|split].
  - unfold parse_pad; rewrite Ht; reflexivity.
  - unfold pad_supported; rewrite Ht; reflexivity.
  - intros env f; rewrite !parse_footprint_pads; split.
    + rewrite collect_pads_filter; reflexivity.
    + rewrite mark_pin1_length, collect_pads_length; reflexivity.
Qed.

(** ** Pin-1 selection *)

Lemma collect_pads_numbers cfg ps s :
  map fst (val (collect_pads cfg ps) s) = map pad_number (List.filter pad_supported ps).
Proof.
  rewrite collect_pads_val.
  induction ps as [|p ps IH]; [reflexivity|].
  cbn [List.filter flat_map].
  destruct (pad_supported p) eqn:Hp; destruct (parse_pad_val cfg p s) as [Hn Hs].
  - destruct (Hs Hp) as [d [-> _]]; cbn; rewrite IH; reflexivity.
  - rewrite (Hn Hp); exact IH.
Qed.

Lemma collect_pads_unmarked cfg ps s :
  Forall (fun p => pd_pin1 (snd p) = None) (val (collect_pads cfg ps) s).
Proof.
  rewrite collect_pads_val.
  induction ps as [|p ps IH]; [constructor|].
  cbn [flat_map].
  destruct (pad_supported p) eqn:Hp; destruct (parse_pad_val cfg p s) as [Hn Hs].
  - destruct (Hs Hp) as [d [-> Hd]]; cbn; constructor; assumption.
  - rewrite (Hn Hp); exact IH.
Qed.

Lemma sorted_map {A B} (R : B -> B -> Prop) (g : A -> B) (l : list A) :
  Sorted (fun a b => R (g a) (g b)) l -> Sorted R (map g l).
Proof.
  induction 1 as [|a l Hl IH Hh]; cbn [map]; constructor; [exact IH|].
  destruct Hh; constructor; assumption.
Qed.

Lemma filter_first {A} (P : A -> bool) (l : list A) p r :
  List.filter P l = p :: r ->
  exists pre suf, l = (pre ++ p :: suf)%list /\ P p = true /\ Forall (fun x => P x = false) pre.
Proof.
  revert r; induction l as [|x l IH]; intros r H; [discriminate|].
  cbn [List.filter] in H; destruct (P x) eqn:Hx.
  - injection H as <- _; exists [], l; repeat split; [exact Hx|constructor].
  - destruct (IH r H) as (pre & suf & -> & Hp & Hpre).
    exists (x :: pre), suf; repeat split; [exact Hp|constructor; assumption].
Qed.

Lemma filter_nil_forall {A} (P : A -> bool) (l : list A) :
  List.filter P l = [] -> Forall (fun x => P x = false) l.
Proof.
  induction l as [|x l IH]; intro H; [constructor|].
  cbn [List.filter] in H; destruct (P x) eqn:Hx; [discriminate|].
  constructor; [exact Hx|apply IH, H].
Qed.

Lemma forall2_in_l {A B} (R : A -> B -> Prop) l1 l2 x :
  Forall2 R l1 l2 -> In x l1 -> exists y, In y l2 /\ R x y.
Proof.
  induction 1 as [|a b l1 l2 Hab _ IH]; intros Hin; [destruct Hin|].
  destruct Hin as [<-|Hin].
  - exists b; split; [left; reflexivity|exact Hab].
  - destruct (IH Hin) as [y [Hy Hr]]; exists y; split; [right; exact Hy|exact Hr].
Qed.

Lemma forall2_count {A B} (P : A -> bool) (Q : B -> bool) l1 l2 :
  Forall2 (fun a b => Q b = P a) l1 l2 ->
  length (List.filter Q l2) = length (List.filter P l1).
Proof.
  induction 1 as [|a b l1 l2 Hab _ IH]; [reflexivity|].
  cbn [List.filter]; rewrite Hab; destruct (P a); cbn [length]; rewrite IH; reflexivity.
Qed.

Lemma nodup_count_one (l : list string) x :
  List.NoDup l -> In x l -> length (List.filter (fun k => String.eqb k x) l) = 1.
Proof.
  induction 1 as [|y l Hy Hnd IH]; intro Hin; [destruct Hin|].
  cbn [List.filter]; destruct (String.eqb y x) eqn:E.
  - apply String.eqb_eq in E; subst y; cbn [length].
    assert (Hz : List.filter (fun k => String.eqb k x) l = []).
    { clear IH Hnd Hin; induction l as [|z l IHl]; [reflexivity|].
      cbn [List.filter]; destruct (String.eqb z x) eqn:Ez.
      - apply String.eqb_eq in Ez; subst z; exfalso; apply Hy; left; reflexivity.
      - apply IHl; intro Hx; apply Hy; right; exact Hx. }
    rewrite Hz; reflexivity.
  - apply String.eqb_neq in E; destruct Hin as [->|Hin]; [contradiction|].
    apply IH, Hin.
Qed.

Lemma mark_forall2 (sel : string) (l : list (string * PadDict)) :
  Forall (fun p => pd_pin1 (snd p) = None) l ->
  Forall2 (fun k d => is_marked d = String.eqb k sel) (map fst l)
    (map (fun p => if String.eqb (fst p) sel then set_pin1 (snd p) else snd p) l).
Proof.
  induction 1 as [|p l Hp _ IH]; cbn [map];
    [apply List.Forall2_nil|apply List.Forall2_cons; [|exact IH]].
  destruct (String.eqb (fst p) sel); unfold is_marked; cbn [pd_pin1 set_pin1].
  - apply Z.eqb_refl.
  - rewrite Hp; reflexivity.
Qed.

(** C1 (as the code does it): for a footprint with at least one pad that
    [parse_pad] translates, the pad numbers are sorted ascending ([keys]);
    the selected number [sel] is the first key in [{1, A, A1, P1, PAD1}],
    or, when no key is in that set, the smallest key; the output pad at each
    position is marked pin1 exactly when its number is [sel].  So at least
    one pad is marked, and exactly one when the pad numbers are distinct. *)
Theorem pin1_marks_selected_number (env : Collab) (cfg : Config) (f : Footprint) (s : Store)
  (H : Exists (fun p => pad_supported p = true) (fp_pads f)) :
  exists keys sel,
    Permutation keys (map pad_number (List.filter pad_supported (fp_pads f))) /\
    Sorted String.le keys /\
    Forall2 (fun k d => is_marked d = String.eqb k sel) keys
            (fd_pads (val (parse_footprint env cfg f) s)) /\
    ((exists pre suf, keys = (pre ++ sel :: suf)%list /\ is_pin1_name sel = true /\
                      Forall (fun k => is_pin1_name k = false) pre) \/
     (Forall (fun k => is_pin1_name k = false) keys /\ In sel keys /\
      Forall (String.le sel) keys)) /\
    (exists d, In d (fd_pads (val (parse_footprint env cfg f) s)) /\ is_marked d = true) /\
    (List.NoDup (map pad_number (List.filter pad_supported (fp_pads f))) ->
     length (List.filter is_marked (fd_pads (val (parse_footprint env cfg f) s))) = 1).
Proof.
  rewrite parse_footprint_pads.
  set (s1 := post (footprint_copper_drawings env f) s).
  set (pads := val (collect_pads cfg (fp_pads f)) s1).
  assert (Hnum : map fst pads = map pad_number (List.filter pad_supported (fp_pads f)))
    by apply collect_pads_numbers.
  assert (Hun : Forall (fun p => pd_pin1 (snd p) = None) pads) by apply collect_pads_unmarked.
  assert (Hne : pads <> []).
  { intro He; assert (Hl := collect_pads_length cfg (fp_pads f) s1).
    fold pads in Hl; rewrite He in Hl.
    clear -H Hl; induction H as [p ps Hp|p ps _ IH]; cbn [List.filter] in Hl.
    - rewrite Hp in Hl; discriminate.
    - destruct (pad_supported p); [discriminate|exact (IH Hl)]. }
  set (sorted := sort_pads pads).
  set (sel := pin1_pad_name sorted).
  assert (Hperm : Permutation sorted pads) by apply sort_pads_perm.
  assert (Hmark : mark_pin1 pads =
                  map (fun p => if String.eqb (fst p) sel then set_pin1 (snd p) else snd p) sorted).
  { unfold mark_pin1; destruct pads; [contradiction|reflexivity]. }
  rewrite Hmark.
  assert (Hkeys : Permutation (map fst sorted) (map pad_number (List.filter pad_supported (fp_pads f)))).
  { rewrite <- Hnum; apply Permutation_map, Hperm. }
  assert (Hsorted : Sorted String.le (map fst sorted)).
  { apply (sorted_map String.le fst), sort_pads_sorted. }
  assert (Hf2 : Forall2 (fun k d => is_marked d = String.eqb k sel) (map fst sorted)
                  (map (fun p => if String.eqb (fst p) sel then set_pin1 (snd p) else snd p) sorted)).
  { assert (Hun' : Forall (fun p => pd_pin1 (snd p) = None) sorted).
    { apply (Permutation_Forall (Permutation_sym Hperm)), Hun. }
    apply mark_forall2, Hun'. }
  assert (Hsne : sorted <> []).
  { intro He; apply Hne, Permutation_nil; rewrite <- He; exact Hperm. }
  assert (Hsel_in : In sel (map fst sorted)).
  { unfold sel, pin1_pad_name.
    destruct (List.filter (fun p => is_pin1_name (fst p)) sorted) as [|p r] eqn:Hf.
    - destruct sorted as [|p r]; [contradiction|left; reflexivity].
    - apply in_map, (List.filter_In (fun p => is_pin1_name (fst p)) p sorted).
      rewrite Hf; left; reflexivity. }
  exists (map fst sorted), sel.
  split; [exact Hkeys|]; split; [exact Hsorted|]; split; [exact Hf2|]; split; [|split].
  - unfold sel, pin1_pad_name.
    destruct (List.filter (fun p => is_pin1_name (fst p)) sorted) as [|p r] eqn:Hf.
    + right.
      assert (Hall := filter_nil_forall _ _ Hf).
      destruct sorted as [|p0 r0] eqn:Hs0; [contradiction|].
      split; [|split].
      * apply Forall_map, Hall.
      * left; reflexivity.
      * apply Sorted_StronglySorted in Hsorted;
          [|intros x y z Hxy Hyz; transitivity y; assumption].
        cbn [map] in Hsorted |- *; apply StronglySorted_inv in Hsorted as [_ Hh].
        constructor; [reflexivity|exact Hh].
    + left.
      destruct (filter_first _ _ _ _ Hf) as (pre & suf & Heq & Hp & Hpre).
      exists (map fst pre), (map fst suf); split; [|split].
      * rewrite Heq, map_app; reflexivity.
      * exact Hp.
      * apply Forall_map, Hpre.
  - destruct (forall2_in_l _ _ _ _ Hf2 Hsel_in) as [d [Hd Hm]].
    exists d; split; [exact Hd|rewrite Hm; apply String.eqb_refl].
  - intro Hnd.
    rewrite (forall2_count (fun k => String.eqb k sel) is_marked _ _ Hf2).
    apply nodup_count_one; [|exact Hsel_in].
    apply (Permutation_NoDup (Permutation_sym Hkeys)), Hnd.
Qed.

(** ** Lemmas on [mapM] and the outline *)

Lemma mapM_val_forall2 {A B} (f : A -> M B) (P : A -> B -> Prop) l s :
  (forall x s, P x (val (f x) s)) -> Forall2 P l (val (mapM f l) s).
Proof.
  intro Hf; revert s; induction l as [|x l IH]; intro s; cbn [mapM].
  - apply List.Forall2_nil.
  - rewrite bind_val, bind_val; apply List.Forall2_cons; [apply Hf|apply IH].
Qed.

Lemma parse_footprint_layer env cfg f s :
  fd_layer (val (parse_footprint env cfg f) s) =
  if layer_eqb (fp_layer f) BL_F_Cu then "F" else "B".
Proof. unfold parse_footprint; rewrite !bind_val; reflexivity. Qed.

(** C10: every footprint yields one record, labelled ["F"] when it is on
    front copper and ["B"] on any other layer (back copper or not copper). *)
Theorem parse_footprints_layer (env : Collab) (cfg : Config) (fps : list Footprint) (s : Store) :
  Forall2 (fun f d => (fp_layer f = BL_F_Cu -> fd_layer d = "F") /\
                      (fp_layer f <> BL_F_Cu -> fd_layer d = "B"))
          fps (val (parse_footprints env cfg fps) s).
Proof.
  apply mapM_val_forall2; intros f s'; rewrite parse_footprint_layer.
  destruct (layer_eqb (fp_layer f) BL_F_Cu) eqn:E.
  - apply layer_eqb_spec in E; split; [reflexivity|contradiction].
  - split; [intro Hl; apply layer_eqb_spec in Hl; congruence|reflexivity].
Qed.

Lemma edges_fold_bbox env ds acc s :
  snd (val (foldM (edges_step env) acc ds) s) = fold_left bbox_step ds (snd acc).
Proof.
  revert acc s; induction ds as [|d ds IH]; intros acc s; [reflexivity|].
  cbn [foldM fold_left]; rewrite bind_val, IH; f_equal.
  unfold edges_step, bbox_step.
  destruct (layer_eqb (d_layer d) BL_Edge_Cuts); [|reflexivity].
  rewrite bind_val; cbn [val ret fst snd]; destruct (snd acc); reflexivity.
Qed.

Lemma bbox_step_merge ds acc :
  fold_left bbox_step ds acc =
  fold_left merge_opt (map d_bbox (List.filter (on_layer BL_Edge_Cuts) ds)) acc.
Proof.
  revert acc; induction ds as [|d ds IH]; intro acc; [reflexivity|].
  cbn [fold_left List.filter]; unfold on_layer at 1, bbox_step at 2.
  destruct (layer_eqb (d_layer d) BL_Edge_Cuts); rewrite IH; reflexivity.
Qed.

Lemma parse_edges_bbox env fps ds s :
  snd (fst (val (parse_edges env fps ds) s)) =
  fold_left merge_opt (map d_bbox (List.filter (on_layer BL_Edge_Cuts)
                                     (ds ++ concat (map fp_shapes fps))%list)) None.
Proof.
  unfold parse_edges; rewrite bind_val; cbn [val ret fst snd].
  rewrite edges_fold_bbox, bbox_step_merge; reflexivity.
Qed.

Lemma merge_some L b : fold_left merge_opt L (Some b) <> None.
Proof.
  revert b; induction L as [|c L IH]; intros b; [discriminate|apply IH].
Qed.

Lemma merge_none L : fold_left merge_opt L None = None <-> L = [].
Proof.
  destruct L as [|c L]; split; intro H; try reflexivity; try discriminate.
  exfalso; exact (merge_some L _ H).
Qed.

Lemma is_min_split m y z l : is_min m (Z.min y z :: l) -> is_min m (y :: z :: l).
Proof.
  intros [Hin Hall]; apply Forall_cons_iff in Hall as [Hm Hall]; split.
  - destruct Hin as [E|Hin]; [|right; right; exact Hin].
    destruct (Z.min_dec y z) as [D|D]; rewrite D in E; [left|right; left]; exact E.
  - repeat constructor; [lia|lia|exact Hall].
Qed.

Lemma is_max_split m y z l : is_max m (Z.max y z :: l) -> is_max m (y :: z :: l).
Proof.
  intros [Hin Hall]; apply Forall_cons_iff in Hall as [Hm Hall]; split.
  - destruct Hin as [E|Hin]; [|right; right; exact Hin].
    destruct (Z.max_dec y z) as [D|D]; rewrite D in E; [left|right; left]; exact E.
  - repeat constructor; [lia|lia|exact Hall].
Qed.

Lemma merge_min (lo : Box2 -> Z) (Hlo : forall a b, lo (box_merge a b) = Z.min (lo a) (lo b)) L :
  forall acc b, fold_left merge_opt L acc = Some b -> is_min (lo b) (map lo (opt_list acc ++ L)).
Proof.
  induction L as [|c L IH]; intros acc b H.
  - cbn [fold_left] in H; subst acc; cbn; split; [left; reflexivity|constructor; [lia|constructor]].
  - cbn [fold_left] in H; apply IH in H; unfold merge_opt in H; cbn [opt_list app map] in H.
    destruct acc as [a|]; cbn [opt_list app map] in H |- *; [|exact H].
    rewrite Hlo in H; apply is_min_split, H.
Qed.

Lemma merge_max (hi : Box2 -> Z) (Hhi : forall a b, hi (box_merge a b) = Z.max (hi a) (hi b)) L :
  forall acc b, fold_left merge_opt L acc = Some b -> is_max (hi b) (map hi (opt_list acc ++ L)).
Proof.
  induction L as [|c L IH]; intros acc b H.
  - cbn [fold_left] in H; subst acc; cbn; split; [left; reflexivity|constructor; [lia|constructor]].
  - cbn [fold_left] in H; apply IH in H; unfold merge_opt in H; cbn [opt_list app map] in H.
    destruct acc as [a|]; cbn [opt_list app map] in H |- *; [|exact H].
    rewrite Hhi in H; apply is_max_split, H.
Qed.

Lemma lo_x_merge a b : lo_x (box_merge a b) = Z.min (lo_x a) (lo_x b).
Proof. reflexivity. Qed.
Lemma lo_y_merge a b : lo_y (box_merge a b) = Z.min (lo_y a) (lo_y b).
Proof. reflexivity. Qed.
Lemma hi_x_merge a b : hi_x (box_merge a b) = Z.max (hi_x a) (hi_x b).
Proof. unfold hi_x, box_merge; cbn; lia. Qed.
Lemma hi_y_merge a b : hi_y (box_merge a b) = Z.max (hi_y a) (hi_y b).
Proof. unfold hi_y, box_merge; cbn; lia. Qed.

Lemma edge_drawings_parse board :
  List.filter (on_layer BL_Edge_Cuts)
    ((b_shapes board ++ b_text board ++ concat (map fp_texts_and_fields (b_footprints board)))
     ++ concat (map fp_shapes (b_footprints board)))%list = edge_drawings board.
Proof. unfold edge_drawings; rewrite <- !app_assoc; reflexivity. Qed.

(** C2: [parse] fails exactly when no drawing (board shape or text,
    footprint text or field, footprint shape) lies on [Edge.Cuts]; otherwise
    [edges_bbox] is the millimetre conversion of the least x and y and the
    greatest far-corner x and y over the boxes of those drawings. *)
Theorem parse_outline_bbox (env : Collab) (cfg : Config) (board : Board) (s : Store) :
  (val (parse env cfg board) s = None <-> edge_drawings board = []) /\
  (forall r, val (parse env cfg board) s = Some r ->
   exists x0 y0 x1 y1,
     edges_bbox (fst r) =
       mkEdgesBBox (normalize_Z x0) (normalize_Z y0) (normalize_Z x1) (normalize_Z y1) /\
     is_min x0 (map (fun d => lo_x (d_bbox d)) (edge_drawings board)) /\
     is_min y0 (map (fun d => lo_y (d_bbox d)) (edge_drawings board)) /\
     is_max x1 (map (fun d => hi_x (d_bbox d)) (edge_drawings board)) /\
     is_max y1 (map (fun d => hi_y (d_bbox d)) (edge_drawings board))).
Proof.
  assert (Hb := parse_edges_bbox env (b_footprints board)
                  (b_shapes board ++ b_text board
                   ++ concat (map fp_texts_and_fields (b_footprints board)))%list s).
  rewrite edge_drawings_parse in Hb.
  unfold parse; rewrite bind_val.
  destruct (val (parse_edges env _ _) s) as [[edges [bb|]] dr]; cbn [fst snd] in Hb.
  - cbv beta iota zeta.
    rewrite !bind_val; cbn [val ret fst].
    split.
    + split; [discriminate|intro He; rewrite He in Hb; discriminate].
    + intros r Hr; injection Hr as <-; cbn [fst edges_bbox].
      symmetry in Hb.
      exists (lo_x bb), (lo_y bb), (hi_x bb), (hi_y bb); split; [reflexivity|].
      rewrite <- !(map_map d_bbox).
      split; [|split; [|split]].
      * exact (merge_min lo_x lo_x_merge _ None bb Hb).
      * exact (merge_min lo_y lo_y_merge _ None bb Hb).
      * exact (merge_max hi_x hi_x_merge _ None bb Hb).
      * exact (merge_max hi_y hi_y_merge _ None bb Hb).
  - cbv beta iota zeta.
    rewrite bind_val; cbn [val ret fst].
    split.
    + split; [intros _|reflexivity].
      symmetry in Hb; apply merge_none in Hb.
      destruct (edge_drawings board); [reflexivity|discriminate].
    + intros r Hr; discriminate.
Qed.

(** ** The frame of a parse *)

Definition framed (env : Collab) {A} (m : M A) : Prop := forall s, frame env s (post m s).

Lemma frame_refl env s : frame env s s.
Proof. split; [intro; apply rt_refl|reflexivity]. Qed.

Lemma frame_trans env s1 s2 s3 : frame env s1 s2 -> frame env s2 s3 -> frame env s1 s3.
Proof.
  intros [H12 P12] [H23 P23]; split; [|congruence].
  intro id; eapply rt_trans; [apply H12|apply H23].
Qed.

Lemma preserves_framed env {A} (m : M A) : preserves m -> framed env m.
Proof. intros Hm s; rewrite Hm; apply frame_refl. Qed.

Lemma framed_bind env {A B} (m : M A) (k : A -> M B) :
  framed env m -> (forall a, framed env (k a)) -> framed env (bind m k).
Proof.
  intros Hm Hk s; rewrite bind_post; eapply frame_trans; [apply Hm|apply Hk].
Qed.

Lemma framed_mapM env {A B} (f : A -> M B) l :
  (forall x, framed env (f x)) -> framed env (mapM f l).
Proof.
  intro Hf; induction l as [|x l IH]; cbn [mapM].
  - apply preserves_framed, preserves_ret.
  - apply framed_bind; [apply Hf|intro; apply framed_bind; [apply IH|]].
    intro; apply preserves_framed, preserves_ret.
Qed.

Lemma framed_foldM env {A B} (f : A -> B -> M A) a l :
  (forall a x, framed env (f a x)) -> framed env (foldM f a l).
Proof.
  intro Hf; revert a; induction l as [|x l IH]; intro a; cbn [foldM].
  - apply preserves_framed, preserves_ret.
  - apply framed_bind; [apply Hf|intro; apply IH].
Qed.

Lemma preserves_parse_text_subshapes off ss : preserves (parse_text_subshapes off ss).
Proof.
  induction ss as [|[] ss IH]; cbn [parse_text_subshapes]; solve_preserves.
Qed.

#[local] Hint Resolve preserves_parse_text_subshapes preserves_parse_pad
  preserves_collect_pads : preserves_db.

Lemma framed_set_expand env tid s :
  frame env s (post (if has_dollar (st_text s tid)
                     then set_text_value tid (expand_text_variables env (st_text s tid))
                     else ret tt) s).
Proof.
  destruct (has_dollar (st_text s tid)) eqn:Hd; [|apply frame_refl].
  split; [|reflexivity].
  intro id; unfold post; cbn [set_text_value fst snd st_text].
  destruct (Nat.eqb id tid) eqn:E; [|apply rt_refl].
  apply Nat.eqb_eq in E; subst id.
  apply rt_step; split; [exact Hd|reflexivity].
Qed.

Lemma framed_parse_text env tid off sw : framed env (parse_text env tid off sw).
Proof.
  unfold parse_text; intro s; rewrite bind_post.
  change (post (get_text_value tid) s) with s.
  change (val (get_text_value tid) s) with (st_text s tid).
  rewrite bind_post.
  eapply frame_trans; [apply framed_set_expand|].
  apply preserves_framed; solve_preserves.
Qed.

Ltac solve_framed :=
  repeat first
    [ match goal with |- framed _ (parse_text _ _ _ _) => apply framed_parse_text end
    | apply framed_bind; [|intro]
    | apply framed_mapM; intro
    | apply framed_foldM; intros ? ?
    | apply preserves_framed; solve [solve_preserves]
    | match goal with
      | |- framed _ (match ?x with _ => _ end) => destruct x
      | |- framed _ (if ?b then _ else _) => destruct b
      end ].

Lemma framed_parse_shape env d : framed env (parse_shape env d).
Proof. unfold parse_shape; destruct (d_kind d); solve_framed. Qed.

Lemma framed_parse_footprint env cfg f : framed env (parse_footprint env cfg f).
Proof.
  unfold parse_footprint, footprint_copper_drawings; solve_framed; apply framed_parse_shape.
Qed.

Lemma framed_parse_zone env cfg acc z : framed env (parse_zone cfg acc z).
Proof. unfold parse_zone; solve_framed. Qed.

Lemma framed_parse_edges env fps ds : framed env (parse_edges env fps ds).
Proof.
  unfold parse_edges, edges_step; solve_framed; apply framed_parse_shape.
Qed.

(** C9: a whole [parse] changes the store only by rewriting text values
    through variable expansion of values that contain [$] (zero or more
    times per text object), and leaves the board's custom pad outlines as
    they were: the pad-relative move is applied to the fetched copy. *)
Theorem parse_frame (env : Collab) (cfg : Config) (board : Board) (s : Store) :
  (forall id, clos_refl_trans string (expand_step env)
                (st_text s id) (st_text (post (parse env cfg board) s) id)) /\
  st_pad_outline (post (parse env cfg board) s) = st_pad_outline s.
Proof.
  change (frame env s (post (parse env cfg board) s)); revert s.
  unfold parse; apply framed_bind; [apply framed_parse_edges|intros [[edges [bb|]] dr]].
  - cbv beta iota zeta; unfold parse_footprints.
    solve_framed; first [apply framed_parse_shape|apply framed_parse_footprint
                        |apply framed_parse_zone].
  - cbv beta iota zeta; solve_framed.
Qed.

(** ** Evaluations on concrete inputs *)

(** C1, counterexample: two translated pads both numbered ["1"] are both
    marked pin 1. *)
Lemma pin1_duplicate_numbers_counterexample :
  length (List.filter is_marked
            (fd_pads (val (parse_footprint ex_env ex_cfg
                             (ex_fp BL_F_Cu [] [ex_pad "1" PSS_CIRCLE; ex_pad "1" PSS_CIRCLE]))
                          ex_store))) = 2.
Proof. vm_compute; reflexivity. Qed.

Lemma pin1_marks_selected_number_witness :
  Exists (fun p => pad_supported p = true)
    (fp_pads (ex_fp BL_F_Cu [] [ex_pad "2" PSS_CIRCLE; ex_pad "1" PSS_CIRCLE; ex_pad "3" PSS_CIRCLE])) /\
  exists d, In d (fd_pads (val (parse_footprint ex_env ex_cfg
                                  (ex_fp BL_F_Cu [] [ex_pad "2" PSS_CIRCLE; ex_pad "1" PSS_CIRCLE;
                                                     ex_pad "3" PSS_CIRCLE])) ex_store)) /\
            is_marked d = true.
Proof.
  assert (Hx : Exists (fun p => pad_supported p = true)
                 (fp_pads (ex_fp BL_F_Cu [] [ex_pad "2" PSS_CIRCLE; ex_pad "1" PSS_CIRCLE;
                                             ex_pad "3" PSS_CIRCLE])))
    by (apply List.Exists_cons_hd; reflexivity).
  split; [exact Hx|].
  destruct (pin1_marks_selected_number ex_env ex_cfg _ ex_store Hx)
    as (keys & sel & _ & _ & _ & _ & Hm & _).
  exact Hm.
Defined.

Lemma parse_outline_bbox_witness :
  exists r, val (parse ex_env ex_cfg (ex_board [] [ex_edge_rect])) ex_store = Some r /\
  exists x0 y0 x1 y1,
    edges_bbox (fst r) =
      mkEdgesBBox (normalize_Z x0) (normalize_Z y0) (normalize_Z x1) (normalize_Z y1) /\
    is_min x0 (map (fun d => lo_x (d_bbox d)) (edge_drawings (ex_board [] [ex_edge_rect]))) /\
    is_min y0 (map (fun d => lo_y (d_bbox d)) (edge_drawings (ex_board [] [ex_edge_rect]))) /\
    is_max x1 (map (fun d => hi_x (d_bbox d)) (edge_drawings (ex_board [] [ex_edge_rect]))) /\
    is_max y1 (map (fun d => hi_y (d_bbox d)) (edge_drawings (ex_board [] [ex_edge_rect]))).
Proof.
  destruct (parse_outline_bbox ex_env ex_cfg (ex_board [] [ex_edge_rect]) ex_store) as [Hn Hs].
  destruct (val (parse ex_env ex_cfg (ex_board [] [ex_edge_rect])) ex_store) as [r|] eqn:E.
  - exists r; split; [reflexivity|exact (Hs r eq_refl)].
  - exfalso; destruct Hn as [Hn _]; specialize (Hn eq_refl); vm_compute in Hn; discriminate Hn.
Defined.

Lemma parse_pad_trapezoid_corners_witness :
  psl_shape (pad_copper0 (ex_pad "1" PSS_TRAPEZOID)) = PSS_TRAPEZOID /\
  exists d, val (parse_pad ex_cfg (ex_pad "1" PSS_TRAPEZOID)) ex_store = Some d /\
            pd_shape d = "custom".
Proof.
  split; [reflexivity|].
  destruct (parse_pad_trapezoid_corners ex_cfg (ex_pad "1" PSS_TRAPEZOID) ex_store eq_refl)
    as (d & Hd & Hs & _).
  exists d; split; assumption.
Defined.

Lemma parse_pad_unsupported_omitted_witness :
  ~ In (PSS_Other 9) supported_shape_codes /\
  parse_pad ex_cfg (ex_pad "9" (PSS_Other 9)) ex_store =
  (None, ex_store, [mkLog Info "Unsupported pad shape %s, skipping."]).
Proof.
  assert (H : ~ In (psl_shape (pad_copper0 (ex_pad "9" (PSS_Other 9)))) supported_shape_codes).
  { intro Hin; cbn in Hin; intuition discriminate. }
  split; [exact H|].
  exact (proj1 (parse_pad_unsupported_omitted ex_cfg _ ex_store H)).
Defined.

(** C5: on a board whose outline is one rectangle, with an unsupported
    drawable on [F.SilkS] and one on the front copper of a footprint,
    the document keeps a [None] entry in [silkscreen.F] and in the
    footprint's [drawings]; the only edge is the translated rectangle. *)
Theorem parse_keeps_unsupported_drawings :
  match val (parse ex_env ex_cfg
               (ex_board [ex_fp BL_F_Cu [ex_unsupported BL_F_Cu] []]
                  [ex_edge_rect; ex_unsupported BL_F_SilkS]))
            ex_store with
  | Some (pcb, _) =>
      map is_none (edges pcb) = [false] /\
      map is_none (silkscreen_F pcb) = [true] /\
      map (fun fd => map (fun p => is_none (snd p)) (fd_drawings fd)) (footprints pcb) = [[true]]
  | None => False
  end.
Proof. vm_compute; repeat split. Qed.

(** C6: with nets switched off, a via on front and back copper still
    carries its net in both per-layer lists, whereas a track in the same
    run carries none. *)
Theorem parse_tracks_via_net_ungated :
  parse_tracks (mkConfig true false)
    [TVia (mkVec 1000000 2000000) [BL_F_Cu; BL_B_Cu] (mkVec 600000 600000) false (mkVec 300000 300000) "GND";
     TTrack BL_F_Cu (mkVec 0 0) (mkVec 1000000 0) 250000 "GND"] =
  ([TDLine (normalize_vec (mkVec 1000000 2000000)) (normalize_vec (mkVec 1000000 2000000))
           (normalize_Z 600000) (Some "GND") None;
    TDLine (normalize_vec (mkVec 0 0)) (normalize_vec (mkVec 1000000 0))
           (normalize_Z 250000) None None],
   [TDLine (normalize_vec (mkVec 1000000 2000000)) (normalize_vec (mkVec 1000000 2000000))
           (normalize_Z 600000) (Some "GND") None]).
Proof. reflexivity. Qed.

Lemma parse_polygon_points_in_order_witness :
  parse_polygon ex_poly ex_store =
    ([normalize_vec (mkVec 0 0); normalize_vec (mkVec 0 1000000)], ex_store, [arc_warning]) /\
  val (parse_shape ex_env (mkDrawable BL_F_SilkS (KPolygon [ex_poly] true) 100000 ex_box)) ex_store =
    Some (DrPolygon (0, 0)%Z 0 [[normalize_vec (mkVec 0 0); normalize_vec (mkVec 0 1000000)]]
                    None None).
Proof.
  destruct (parse_polygon_points_in_order ex_poly ex_store) as [H1 H2].
  split; [exact H1|].
  exact (H2 ex_env (mkDrawable BL_F_SilkS (KPolygon [ex_poly] true) 100000 ex_box)
            [ex_poly] true eq_refl).
Defined.

Lemma parse_footprints_layer_witness :
  Forall2 (fun f d => (fp_layer f = BL_F_Cu -> fd_layer d = "F") /\
                      (fp_layer f <> BL_F_Cu -> fd_layer d = "B"))
    [ex_fp BL_F_Cu [] []; ex_fp BL_F_SilkS [] []]
    (val (parse_footprints ex_env ex_cfg [ex_fp BL_F_Cu [] []; ex_fp BL_F_SilkS [] []]) ex_store) /\
  map fd_layer (val (parse_footprints ex_env ex_cfg [ex_fp BL_F_Cu [] []; ex_fp BL_F_SilkS [] []])
                    ex_store) = ["F"; "B"].
Proof.
  split; [apply parse_footprints_layer|vm_compute; reflexivity].
Defined.

(** ** Further properties of the parser *)

Lemma py_min_Qmin a b : py_min a b = Qmin a b.
Proof.
  unfold py_min, Qmin, GenericMinMax.gmin; cbv beta.
  destruct (Qle_bool a b) eqn:E; cbn [negb].
  - apply Qle_bool_iff in E; rewrite Qle_alt in E; destruct (Qcompare a b); congruence.
  - destruct (Qcompare a b) eqn:C; [| |reflexivity];
      exfalso; assert (Hle : (a <= b)%Q) by (apply Qle_alt; congruence);
      apply Qle_bool_iff in Hle; congruence.
Qed.

(** The chamfer bitmask: a value in [0, 15] whose bits 0-3 are the
    top-left, top-right, bottom-left and bottom-right flags. *)
Theorem parse_chamfered_corners_bits (c : ChamferedRectCorners) :
  (0 <= parse_chamfered_corners c < 16)%Z /\
  Z.testbit (parse_chamfered_corners c) 0 = top_left c /\
  Z.testbit (parse_chamfered_corners c) 1 = top_right c /\
  Z.testbit (parse_chamfered_corners c) 2 = bottom_left c /\
  Z.testbit (parse_chamfered_corners c) 3 = bottom_right c.
Proof.
  destruct c as [[] [] [] []]; repeat split; vm_compute; first [reflexivity|discriminate].
Qed.

Lemma parse_pad_supported_val cfg pad s :
  pad_supported pad = true ->
  val (parse_pad cfg pad) s =
  Some (mkPadDict
    ((if layer_in BL_F_Cu (pad_layers pad) then ["F"] else [])
     ++ (if layer_in BL_B_Cu (pad_layers pad) then ["B"] else []))%list
    (normalize_vec (pad_position pad)) (normalize_vec (psl_size (pad_copper0 pad)))
    (pad_angle pad)
    (if String.eqb (pad_shape_tag (psl_shape (pad_copper0 pad))) "trapezoid" then "custom"
     else pad_shape_tag (psl_shape (pad_copper0 pad)))
    (val (if String.eqb (pad_shape_tag (psl_shape (pad_copper0 pad))) "custom" then
       let* polygon := get_pad_outline (pad_id pad) in
       match polygon with
       | Some p =>
           let* pts := parse_polygon (polygon_move p (vneg (pad_position pad))) in
           ret (Some [pts])
       | None =>
           let* _ := log Warn "Custom pad shape could not be retrieved for pad %s" in
           ret (Some [])
       end
     else if String.eqb (pad_shape_tag (psl_shape (pad_copper0 pad))) "trapezoid" then
       ret (Some [trapezoid_polygon (normalize_vec (psl_size (pad_copper0 pad)))
                    (normalize_vec (psl_trapezoid_delta (pad_copper0 pad)))])
     else ret None) s)
    (if String.eqb (pad_shape_tag (psl_shape (pad_copper0 pad))) "roundrect"
        || String.eqb (pad_shape_tag (psl_shape (pad_copper0 pad))) "chamfrect"
     then Some (psl_corner_rounding_ratio (pad_copper0 pad)
                * py_min (fst (normalize_vec (psl_size (pad_copper0 pad))))
                         (snd (normalize_vec (psl_size (pad_copper0 pad)))))%Q
     else None)
    (if String.eqb (pad_shape_tag (psl_shape (pad_copper0 pad))) "chamfrect"
     then Some (parse_chamfered_corners (psl_chamfered_corners (pad_copper0 pad))) else None)
    (if String.eqb (pad_shape_tag (psl_shape (pad_copper0 pad))) "chamfrect"
     then Some (psl_chamfer_ratio (pad_copper0 pad)) else None)
    (if is_th (pad_type pad) then "th" else "smd")
    (if is_th (pad_type pad) then Some (drill_shape_tag (pad_drill_shape pad)) else None)
    (if is_th (pad_type pad) then Some (normalize_vec (pad_drill_diameter pad)) else None)
    (normalize_vec (psl_offset (pad_copper0 pad)))
    (if include_nets cfg then Some (pad_net pad) else None)
    None).
Proof.
  unfold pad_supported, parse_pad; intro Hs.
  destruct (String.eqb (pad_shape_tag (psl_shape (pad_copper0 pad))) "");
    [discriminate|].
  rewrite bind_val; reflexivity.
Qed.

(** A translated pad is through-hole ("th") exactly for plated and
    non-plated through-hole pads; it then carries a drill shape ("oblong"
    for an oblong drill, "circle" for every other drill shape) and the
    normalized drill diameter vector [[x, y]] in mm; any other pad type is "smd" with no drill
    fields.  The net name is attached only when nets are included. *)
Theorem parse_pad_drill_and_net (cfg : Config) (pad : Pad) (s : Store)
  (H : pad_supported pad = true) :
  exists d, val (parse_pad cfg pad) s = Some d /\
    ((pad_type pad = PT_PTH \/ pad_type pad = PT_NPTH) ->
       pd_type d = "th" /\
       pd_drillshape d = Some (if drill_shape_tag (pad_drill_shape pad) =? "oblong"
                               then "oblong" else "circle") /\
       (pd_drillshape d = Some "oblong" <-> pad_drill_shape pad = DS_OBLONG) /\
       pd_drillsize d = Some (normalize_vec (pad_drill_diameter pad))) /\
    (pad_type pad <> PT_PTH -> pad_type pad <> PT_NPTH ->
       pd_type d = "smd" /\ pd_drillshape d = None /\ pd_drillsize d = None) /\
    (include_nets cfg = true -> pd_net d = Some (pad_net pad)) /\
    (include_nets cfg = false -> pd_net d = None).
Proof.
  rewrite (parse_pad_supported_val cfg pad s H).
  eexists; split; [reflexivity|]; cbn [pd_type pd_drillshape pd_drillsize pd_net].
  split; [|split; [|split]].
  - intros Ht; assert (Hth : is_th (pad_type pad) = true)
      by (destruct Ht as [-> | ->]; reflexivity).
    rewrite Hth; split; [reflexivity|].
    destruct (pad_drill_shape pad); (split; [reflexivity|split; [|reflexivity]]);
      split; intro E; try reflexivity; try discriminate.
  - intros H1 H2; destruct (pad_type pad); try contradiction; repeat split.
  - intros ->; reflexivity.
  - intros ->; reflexivity.
Qed.

(** Rounded-rectangle and chamfered-rectangle pads get the corner radius
    [corner_rounding_ratio * min(size.x, size.y)]; only chamfered
    rectangles get the chamfer bitmask and ratio; every other shape gets
    none of the three. *)
Theorem parse_pad_corner_fields (cfg : Config) (pad : Pad) (s : Store)
  (H : pad_supported pad = true) :
  exists d, val (parse_pad cfg pad) s = Some d /\
    ((psl_shape (pad_copper0 pad) = PSS_ROUNDRECT \/
      psl_shape (pad_copper0 pad) = PSS_CHAMFEREDRECT) ->
       pd_radius d = Some (psl_corner_rounding_ratio (pad_copper0 pad) *
                           Qmin (normalize_Z (vx (psl_size (pad_copper0 pad))))
                                (normalize_Z (vy (psl_size (pad_copper0 pad)))))%Q) /\
    (psl_shape (pad_copper0 pad) = PSS_CHAMFEREDRECT ->
       pd_chamfpos d = Some (parse_chamfered_corners (psl_chamfered_corners (pad_copper0 pad))) /\
       pd_chamfratio d = Some (psl_chamfer_ratio (pad_copper0 pad))) /\
    (psl_shape (pad_copper0 pad) <> PSS_ROUNDRECT ->
     psl_shape (pad_copper0 pad) <> PSS_CHAMFEREDRECT ->
       pd_radius d = None /\ pd_chamfpos d = None /\ pd_chamfratio d = None).
Proof.
  rewrite (parse_pad_supported_val cfg pad s H).
  eexists; split; [reflexivity|]; cbn [pd_radius pd_chamfpos pd_chamfratio].
  rewrite py_min_Qmin.
  split; [|split].
  - intros [-> | ->]; reflexivity.
  - intros ->; split; reflexivity.
  - intros H1 H2; destruct (psl_shape (pad_copper0 pad)); try contradiction; repeat split.
Qed.

Lemma outline_points_move delta ns :
  outline_points (map (node_move delta) ns) = map (fun v => vadd v delta) (outline_points ns).
Proof. unfold outline_points; induction ns as [|[] ns IH]; cbn; rewrite ?IH; reflexivity. Qed.

Lemma count_arcs_move delta ns : count_arcs (map (node_move delta) ns) = count_arcs ns.
Proof.
  unfold count_arcs; induction ns as [|[] ns IH]; cbn [map List.filter node_move length];
    rewrite ?IH; reflexivity.
Qed.

(** A custom pad takes the board's outline of the pad, moved by minus the
    pad position so that it is pad-relative, as its one polygon; the
    board's outline is not changed, and only the outline's arcs are
    reported.  Without an outline the pad gets no polygon and one warning. *)
Theorem parse_pad_custom_outline (cfg : Config) (pad : Pad) (s : Store)
  (H : psl_shape (pad_copper0 pad) = PSS_CUSTOM) :
  (forall p, st_pad_outline s (pad_id pad) = Some p ->
     exists d, parse_pad cfg pad s = (Some d, s, repeat arc_warning (count_arcs (outline p))) /\
       pd_shape d = "custom" /\
       pd_polygons d = Some [map (fun v => normalize_vec (vadd v (vneg (pad_position pad))))
                                 (outline_points (outline p))]) /\
  (st_pad_outline s (pad_id pad) = None ->
     exists d, parse_pad cfg pad s =
       (Some d, s, [mkLog Warn "Custom pad shape could not be retrieved for pad %s"]) /\
       pd_shape d = "custom" /\ pd_polygons d = Some []).
Proof.
  split; [intros p Hp|intros Hp]; unfold parse_pad; rewrite H;
    unfold bind, get_pad_outline, log, ret; cbn -[parse_polygon]; rewrite Hp.
  - unfold parse_polygon; rewrite parse_polygon_nodes_run; cbn [fst snd outline polygon_move].
    rewrite outline_points_move, count_arcs_move, map_map, ?app_nil_r.
    eexists; split; [reflexivity|split; reflexivity].
  - eexists; split; [reflexivity|split; reflexivity].
Qed.

Lemma fold_add_track_app cfg ts acc :
  fold_left (add_track cfg) ts acc =
  ((fst acc ++ fst (fold_left (add_track cfg) ts ([], [])))%list,
   (snd acc ++ snd (fold_left (add_track cfg) ts ([], [])))%list).
Proof.
  revert acc; induction ts as [|t ts IH]; intro acc.
  - cbn; rewrite !app_nil_r; destruct acc; reflexivity.
  - cbn [fold_left]; rewrite IH, (IH (add_track cfg ([], []) t)).
    destruct acc as [F B].
    unfold add_track, append_to_layer; destruct t;
      repeat match goal with
      | |- context [if ?b then _ else _] => destruct b
      end; cbn [fst snd]; rewrite <- ?app_assoc; reflexivity.
Qed.

(** [parse_tracks] distributes over concatenation (as in
    [get_tracks() + get_vias()]): each per-layer list of the joined input
    is the first input's list followed by the second's. *)
Theorem parse_tracks_app (cfg : Config) (ts1 ts2 : list TrackItem) :
  parse_tracks cfg (ts1 ++ ts2) =
  ((fst (parse_tracks cfg ts1) ++ fst (parse_tracks cfg ts2))%list,
   (snd (parse_tracks cfg ts1) ++ snd (parse_tracks cfg ts2))%list).
Proof.
  unfold parse_tracks; rewrite fold_left_app, fold_add_track_app; reflexivity.
Qed.

Lemma add_track_single cfg t :
  length (fst (add_track cfg ([], []) t)) = (if track_on_F t then 1 else 0) /\
  length (snd (add_track cfg ([], []) t)) = (if track_on_B t then 1 else 0).
Proof.
  destruct t as [pos ls sz m dr n|l a b w n|l c a1 a2 r w n]; cbn [add_track track_on_F track_on_B].
  - destruct (layer_in BL_F_Cu ls), (layer_in BL_B_Cu ls); split; reflexivity.
  - destruct l; split; reflexivity.
  - destruct l; split; reflexivity.
Qed.

(** Each per-layer list of [parse_tracks] has one entry per input item
    filed under that layer: a via for each of front and back copper in its
    layer set, a track or arc only for its own layer, so items on any other
    layer are dropped. *)
Theorem parse_tracks_count (cfg : Config) (ts : list TrackItem) :
  length (fst (parse_tracks cfg ts)) = length (List.filter track_on_F ts) /\
  length (snd (parse_tracks cfg ts)) = length (List.filter track_on_B ts).
Proof.
  induction ts as [|t ts [IHF IHB]]; [split; reflexivity|].
  change (t :: ts) with ([t] ++ ts)%list; rewrite parse_tracks_app; cbn [fst snd].
  rewrite !length_app, IHF, IHB.
  destruct (add_track_single cfg t) as [HF HB].
  unfold parse_tracks; cbn [fold_left]; rewrite HF, HB; cbn [List.filter app].
  destruct (track_on_F t), (track_on_B t); split; reflexivity.
Qed.

Lemma foldM_filter_skip {A B} (f : A -> B -> M A) (p : B -> bool) l a s :
  (forall a x, p x = false -> f a x = ret a) ->
  foldM f a (List.filter p l) s = foldM f a l s.
Proof.
  intro Hf; revert a s; induction l as [|x l IH]; intros a s; [reflexivity|].
  cbn [List.filter foldM]; destruct (p x) eqn:Px.
  - cbn [foldM]; unfold bind; destruct (f a x s) as [[a' s1] w1]; rewrite IH; reflexivity.
  - rewrite (Hf a x Px), IH; unfold bind, ret.
    destruct (foldM f a l s) as [[b s2] w2]; reflexivity.
Qed.

(** Zones that are not filled, and rule areas, are skipped: [parse_zones]
    runs (result, store and log) exactly as on the list without them. *)
Theorem parse_zones_skip (cfg : Config) (zs : list Zone) (s : Store) :
  parse_zones cfg zs s = parse_zones cfg (List.filter zone_kept zs) s.
Proof.
  unfold parse_zones; symmetry; apply foldM_filter_skip.
  intros a z Hz; unfold parse_zone, zone_kept in *.
  destruct (z_filled z), (z_rule_area z); try reflexivity; discriminate.
Qed.

Lemma foldM_inv {A B} (f : A -> B -> M A) (I : A -> Prop) (l : list B) :
  (forall a x s, In x l -> I a -> I (val (f a x) s)) ->
  forall a s, I a -> I (val (foldM f a l) s).
Proof.
  induction l as [|x l IH]; intros Hf a s Ha; cbn [foldM]; [exact Ha|].
  rewrite bind_val; apply IH.
  - intros a' y s' Hy; apply Hf; right; exact Hy.
  - apply Hf; [left; reflexivity|exact Ha].
Qed.

Lemma mapM_parse_polygon_val ps s :
  val (mapM parse_polygon ps) s = map (fun p => map normalize_vec (outline_points (outline p))) ps.
Proof.
  revert s; induction ps as [|p ps IH]; intro s; [reflexivity|].
  cbn [mapM map]; rewrite !bind_val, IH.
  unfold val at 2, parse_polygon; rewrite parse_polygon_nodes_run; reflexivity.
Qed.

Lemma copper_not_F_is_B l :
  layer_in l [BL_F_Cu; BL_B_Cu] = true -> layer_eqb l BL_F_Cu = false -> l = BL_B_Cu.
Proof. destruct l; cbn; congruence. Qed.

(** Every entry [parse_zones] files under front (back) copper comes from a
    kept zone of the input that lists that layer and has filled polygons
    for it: its polygons are those polygons' normalized outline points, its
    width the zone's minimum thickness, and it carries the zone's net only
    when nets are included. *)
Theorem parse_zones_sound (cfg : Config) (zs : list Zone) (s : Store) :
  Forall (zone_entry_ok cfg zs BL_F_Cu) (fst (val (parse_zones cfg zs) s)) /\
  Forall (zone_entry_ok cfg zs BL_B_Cu) (snd (val (parse_zones cfg zs) s)).
Proof.
  unfold parse_zones.
  apply (foldM_inv (parse_zone cfg)
           (fun acc => Forall (zone_entry_ok cfg zs BL_F_Cu) (fst acc) /\
                       Forall (zone_entry_ok cfg zs BL_B_Cu) (snd acc)));
    [|split; constructor].
  intros acc z s' Hz Hacc; unfold parse_zone.
  destruct (negb (z_filled z) || z_rule_area z) eqn:Hk; [exact Hacc|].
  assert (Hkept : zone_kept z = true).
  { unfold zone_kept; destruct (z_filled z), (z_rule_area z); cbn in *; congruence. }
  revert acc s' Hacc; cbv zeta.
  apply (foldM_inv _ (fun acc => Forall (zone_entry_ok cfg zs BL_F_Cu) (fst acc) /\
                                 Forall (zone_entry_ok cfg zs BL_B_Cu) (snd acc))).
  intros acc l s'' Hl Hacc.
  apply List.filter_In in Hl as [Hl Hcu].
  destruct (assoc_layer l (z_filled_polygons z)) as [ps|] eqn:Ha; [|exact Hacc].
  rewrite bind_val, mapM_parse_polygon_val; cbn [val ret fst].
  destruct Hacc as [HF HB]; unfold append_to_layer.
  destruct (layer_eqb l BL_F_Cu) eqn:El; cbn [fst snd]; split;
    try assumption; apply Forall_app; split; try assumption; repeat constructor.
  - apply layer_eqb_spec in El; subst l.
    exists z, ps; repeat split; assumption.
  - pose proof (copper_not_F_is_B l Hcu El); subst l.
    exists z, ps; repeat split; assumption.
Qed.

Lemma parse_text_subshapes_val off ss s :
  val (parse_text_subshapes off ss) s = (text_segments off ss, text_polygons off ss).
Proof.
  revert s; induction ss as [|[a b|p|] ss IH]; intro s; [reflexivity| | |].
  - cbn [parse_text_subshapes]; rewrite bind_val, IH; reflexivity.
  - cbn [parse_text_subshapes]; rewrite !bind_val, IH.
    unfold val at 2, parse_polygon; rewrite parse_polygon_nodes_run; cbn [fst].
    cbn [polygon_move outline]; rewrite outline_points_move, map_map; reflexivity.
  - cbn [parse_text_subshapes]; rewrite IH; reflexivity.
Qed.

Lemma post_set_expand env tid s j :
  st_text (post (if has_dollar (st_text s tid)
                 then set_text_value tid (expand_text_variables env (st_text s tid))
                 else ret tt) s) j =
  if Nat.eqb j tid then rendered_value env (st_text s tid) else st_text s j.
Proof.
  unfold rendered_value; destruct (has_dollar (st_text s tid)); unfold post; cbn;
    destruct (Nat.eqb j tid) eqn:E; try reflexivity.
  apply Nat.eqb_eq in E; subst j; reflexivity.
Qed.

(** [parse_text] renders the text's value after expansion (expanded when
    it contains [$]) and stores that value back on the text object, no
    other text being touched.  The result is an svg path of the rendered
    segments, shifted by the offset, when there is at least one segment;
    otherwise it is the list of the rendered polygons, shifted by the
    offset. *)
Theorem parse_text_result (env : Collab) (tid : nat) (off : Vector2) (sw : Z) (s : Store) :
  val (parse_text env tid off sw) s =
    match text_segments off (get_text_as_shapes env tid (rendered_value env (st_text s tid))) with
    | [] => DrTextPolys
              (text_polygons off (get_text_as_shapes env tid (rendered_value env (st_text s tid))))
    | segs => DrTextPath (normalize_Z sw) (create_path env segs)
    end /\
  st_text (post (parse_text env tid off sw) s) tid = rendered_value env (st_text s tid) /\
  (forall j, j <> tid -> st_text (post (parse_text env tid off sw) s) j = st_text s j).
Proof.
  unfold parse_text.
  rewrite bind_val, bind_post.
  change (post (get_text_value tid) s) with s.
  change (val (get_text_value tid) s) with (st_text s tid).
  rewrite bind_val, bind_post.
  set (s1 := post (if has_dollar (st_text s tid)
                   then set_text_value tid (expand_text_variables env (st_text s tid))
                   else ret tt) s).
  assert (Hs1 : forall j, st_text s1 j =
                  if Nat.eqb j tid then rendered_value env (st_text s tid) else st_text s j)
    by apply post_set_expand.
  rewrite bind_val, bind_post.
  change (post (get_text_value tid) s1) with s1.
  change (val (get_text_value tid) s1) with (st_text s1 tid).
  rewrite (Hs1 tid), Nat.eqb_refl.
  rewrite bind_val, bind_post, parse_text_subshapes_val, preserves_parse_text_subshapes.
  split; [|split].
  - destruct (text_segments off _); reflexivity.
  - destruct (text_segments off _); cbn [fst]; unfold post at 1, ret; cbn [fst snd];
      rewrite ?preserves_parse_text_subshapes; assert (Ht := Hs1 tid); rewrite Nat.eqb_refl in Ht; exact Ht.
  - intros j Hj; destruct (text_segments off _); cbn [fst]; unfold post at 1, ret; cbn [fst snd];
      rewrite ?preserves_parse_text_subshapes; assert (Ht := Hs1 j); apply Nat.eqb_neq in Hj; rewrite Hj in Ht; exact Ht.
Qed.

Lemma mapM_length {A B} (f : A -> M B) l s : length (val (mapM f l) s) = length l.
Proof.
  revert s; induction l as [|x l IH]; intro s; [reflexivity|].
  cbn [mapM]; rewrite !bind_val; cbn [val ret fst length]; rewrite IH; reflexivity.
Qed.

Lemma edges_fold_length env ds acc s :
  length (fst (val (foldM (edges_step env) acc ds) s)) =
  length (fst acc) + length (List.filter (on_layer BL_Edge_Cuts) ds).
Proof.
  revert acc s; induction ds as [|d ds IH]; intros acc s; [cbn; lia|].
  cbn [foldM List.filter]; rewrite bind_val, IH.
  unfold edges_step, on_layer; destruct (layer_eqb (d_layer d) BL_Edge_Cuts).
  - rewrite bind_val; cbn [val ret fst length]; rewrite length_app; cbn [length]; lia.
  - reflexivity.
Qed.

Lemma parse_edges_val env fps ds s :
  length (fst (fst (val (parse_edges env fps ds) s))) =
    length (List.filter (on_layer BL_Edge_Cuts) (ds ++ concat (map fp_shapes fps))%list) /\
  snd (val (parse_edges env fps ds) s) = (ds ++ concat (map fp_shapes fps))%list.
Proof.
  unfold parse_edges; rewrite bind_val; cbn [val ret fst snd].
  rewrite edges_fold_length; split; reflexivity.
Qed.

Lemma edges_fold_noedge env ds acc s :
  Forall (fun d => on_layer BL_Edge_Cuts d = false) ds ->
  foldM (edges_step env) acc ds s = (acc, s, []).
Proof.
  intro H; revert acc s; induction H as [|d ds Hd _ IH]; intros acc s; [reflexivity|].
  cbn [foldM]; unfold edges_step, on_layer in *; rewrite Hd.
  unfold bind, ret; rewrite IH; reflexivity.
Qed.

Lemma all_drawings_parse board :
  ((b_shapes board ++ b_text board ++ concat (map fp_texts_and_fields (b_footprints board)))
   ++ concat (map fp_shapes (b_footprints board)))%list = all_drawings board.
Proof. unfold all_drawings; rewrite <- !app_assoc; reflexivity. Qed.

(** Without any drawing on [Edge.Cuts], [parse] logs exactly one error,
    leaves the store as it was and returns no document: nothing else is
    parsed. *)
Theorem parse_no_outline_run (env : Collab) (cfg : Config) (board : Board) (s : Store)
  (H : edge_drawings board = []) :
  parse env cfg board s = (None, s, [mkLog Error no_outline_msg]).
Proof.
  unfold edge_drawings in H; apply filter_nil_forall in H.
  unfold parse, parse_edges.
  unfold bind at 1; unfold bind at 1.
  rewrite edges_fold_noedge; [reflexivity|].
  rewrite <- !app_assoc; exact H.
Qed.

Ltac open_parse Hr :=
  revert Hr; unfold parse; rewrite bind_val;
  let E := fresh "E" in
  match goal with
  | |- context [val (parse_edges ?env ?fps ?ds) ?s] =>
      let Hv := fresh "Hv" in
      pose proof (parse_edges_val env fps ds s) as Hv;
      destruct (val (parse_edges env fps ds) s) as [[?edges [?bb|]] ?dr] eqn:E;
      cbn [fst snd] in Hv
  end;
  cbv beta iota zeta; rewrite ?bind_val; cbn [val ret fst];
  [intro Hr; injection Hr as <- <-; cbn [edges silkscreen_F silkscreen_B fabrication_F
     fabrication_B footprints metadata tracks zones nets]
  |discriminate].

(** A document from [parse] has one edge entry per [Edge.Cuts] drawing,
    one silkscreen (fabrication) entry per drawing on that layer among the
    board's shapes and texts and the footprints' texts, fields and shapes,
    one footprint record and one component per footprint, and the board's
    title block as metadata. *)
Theorem parse_output_lengths (env : Collab) (cfg : Config) (board : Board) (s : Store)
  (pcb : PcbData) (comps : list Component)
  (Hr : val (parse env cfg board) s = Some (pcb, comps)) :
  length (edges pcb) = length (edge_drawings board) /\
  length (silkscreen_F pcb) = length (List.filter (on_layer BL_F_SilkS) (all_drawings board)) /\
  length (silkscreen_B pcb) = length (List.filter (on_layer BL_B_SilkS) (all_drawings board)) /\
  length (fabrication_F pcb) = length (List.filter (on_layer BL_F_Fab) (all_drawings board)) /\
  length (fabrication_B pcb) = length (List.filter (on_layer BL_B_Fab) (all_drawings board)) /\
  length (footprints pcb) = length (b_footprints board) /\
  length comps = length (b_footprints board) /\
  metadata pcb = b_title_block board.
Proof.
  open_parse Hr.
  destruct Hv as [Hlen Hdr]; rewrite all_drawings_parse in Hlen, Hdr; subst dr.
  unfold parse_footprints; rewrite !mapM_length.
  repeat split; [exact Hlen].
Qed.

(** Tracks and zones are present exactly when tracks are included, the
    tracks being [parse_tracks] of the board's tracks followed by its vias
    and the zones a run of [parse_zones] on the board's zones; net names
    are present exactly when nets are included, sorted and with every
    board net once per occurrence. *)
Theorem parse_optional_sections (env : Collab) (cfg : Config) (board : Board) (s : Store)
  (pcb : PcbData) (comps : list Component)
  (Hr : val (parse env cfg board) s = Some (pcb, comps)) :
  (include_tracks cfg = true ->
     tracks pcb = Some (parse_tracks cfg (b_tracks board ++ b_vias board)) /\
     exists s', zones pcb = Some (val (parse_zones cfg (b_zones board)) s')) /\
  (include_tracks cfg = false -> tracks pcb = None /\ zones pcb = None) /\
  (include_nets cfg = true ->
     exists l, nets pcb = Some l /\ Permutation l (b_nets board) /\ Sorted String.le l) /\
  (include_nets cfg = false -> nets pcb = None).
Proof.
  open_parse Hr.
  split; [|split; [|split]]; intro Ht; rewrite Ht; cbv zeta.
  - rewrite bind_val; cbn [val ret fst snd]; split; [reflexivity|eexists; reflexivity].
  - split; reflexivity.
  - eexists; split; [reflexivity|split].
    + apply sort_by_perm.
    + apply sort_by_sorted; [apply string_ltb_le|apply string_not_ltb_le].
  - reflexivity.
Qed.

(** [parse] returns one component per footprint, in order, named by the
    footprint's definition id, on layer "F" or "B" for front or back
    copper and on no layer otherwise, with attribute "Virtual" when the
    footprint is excluded from the BOM and "Normal" otherwise. *)
Theorem parse_components (env : Collab) (cfg : Config) (board : Board) (s : Store)
  (pcb : PcbData) (comps : list Component)
  (Hr : val (parse env cfg board) s = Some (pcb, comps)) :
  Forall2 (fun f c =>
             c_footprint c = fp_def_id f /\
             c_layer c = (if layer_eqb (fp_layer f) BL_F_Cu then Some "F"
                          else if layer_eqb (fp_layer f) BL_B_Cu then Some "B" else None) /\
             c_attr c = (if fp_exclude_from_bom f then "Virtual" else "Normal"))
          (b_footprints board) comps.
Proof.
  open_parse Hr.
  apply mapM_val_forall2; intros f s'.
  unfold footprint_to_component; rewrite !bind_val; cbn [val ret fst].
  repeat split.
Qed.

Lemma labelled_mapM_fst env (g : Drawable -> string) l s :
  map fst (val (mapM (fun d => let* dr := parse_shape env d in ret (g d, dr)) l) s) = map g l.
Proof.
  revert s; induction l as [|d l IH]; intro s; [reflexivity|].
  cbn [mapM map]; rewrite !bind_val; cbn [val ret fst map]; rewrite IH; reflexivity.
Qed.

(** A footprint record's copper drawings are one per footprint shape on
    front or back copper, in order, labelled "F" or "B"; shapes on other
    layers are left out. *)
Theorem parse_footprint_drawings_layers (env : Collab) (cfg : Config) (f : Footprint) (s : Store) :
  map fst (fd_drawings (val (parse_footprint env cfg f) s)) =
  map (fun d => if layer_eqb (d_layer d) BL_F_Cu then "F" else "B")
      (List.filter (fun d => layer_in (d_layer d) [BL_F_Cu; BL_B_Cu]) (fp_shapes f)).
Proof.
  unfold parse_footprint; rewrite !bind_val; cbn [val ret fst fd_drawings].
  unfold footprint_copper_drawings; apply labelled_mapM_fst.
Qed.

(** [parse_shape] returns no drawing exactly for the kinds it does not
    support; such a shape leaves the store as it was and logs one info
    message naming its type. *)
Theorem parse_shape_none_iff_unsupported (env : Collab) (d : Drawable) (s : Store) :
  (val (parse_shape env d) s = None <-> exists name, d_kind d = KUnsupported name) /\
  (forall name, d_kind d = KUnsupported name ->
     parse_shape env d s =
       (None, s, [mkLog Info ("Unsupported shape " ++ name ++ ", skipping")])).
Proof.
  split.
  - unfold parse_shape; destruct (d_kind d) eqn:Ek; rewrite ?bind_val; cbn [val ret fst];
      split; try discriminate; try (intros [n Hn]; discriminate Hn).
    + intros _; exists type_name; reflexivity.
    + intros _; reflexivity.
  - intros name Hk; unfold parse_shape; rewrite Hk.
    unfold bind, log, ret; cbn; reflexivity.
Qed.

(** ** Witnesses of the further properties *)

Lemma parse_pad_drill_and_net_witness :
  pad_supported ex_th_pad = true /\
  exists d, val (parse_pad ex_cfg ex_th_pad) ex_store = Some d /\ pd_type d = "th" /\
            pd_drillshape d = Some "oblong".
Proof.
  assert (H : pad_supported ex_th_pad = true) by reflexivity.
  split; [exact H|].
  destruct (parse_pad_drill_and_net ex_cfg ex_th_pad ex_store H) as (d & Hd & Hth & _).
  destruct (Hth (or_introl eq_refl)) as (Ht & Hs & _).
  exists d; split; [exact Hd|split; [exact Ht|exact Hs]].
Defined.

Lemma parse_pad_corner_fields_witness :
  pad_supported (ex_pad "1" PSS_ROUNDRECT) = true /\
  exists d, val (parse_pad ex_cfg (ex_pad "1" PSS_ROUNDRECT)) ex_store = Some d /\
            pd_radius d =
              Some (psl_corner_rounding_ratio (ex_psl PSS_ROUNDRECT) *
                    Qmin (normalize_Z 2000000) (normalize_Z 1000000))%Q.
Proof.
  assert (H : pad_supported (ex_pad "1" PSS_ROUNDRECT) = true) by reflexivity.
  split; [exact H|].
  destruct (parse_pad_corner_fields ex_cfg (ex_pad "1" PSS_ROUNDRECT) ex_store H)
    as (d & Hd & Hr & _).
  exists d; split; [exact Hd|exact (Hr (or_introl eq_refl))].
Defined.

Lemma parse_pad_custom_outline_witness :
  psl_shape (pad_copper0 (ex_pad "1" PSS_CUSTOM)) = PSS_CUSTOM /\
  exists d, parse_pad ex_cfg (ex_pad "1" PSS_CUSTOM) ex_store_outline =
              (Some d, ex_store_outline, [arc_warning]) /\
            pd_polygons d = Some [[normalize_vec (mkVec 0 0); normalize_vec (mkVec 0 1000000)]].
Proof.
  split; [reflexivity|].
  destruct (parse_pad_custom_outline ex_cfg (ex_pad "1" PSS_CUSTOM) ex_store_outline eq_refl)
    as [Hs _].
  destruct (Hs ex_poly eq_refl) as (d & Hrun & _ & Hpoly).
  exists d; split; [exact Hrun|rewrite Hpoly; vm_compute; reflexivity].
Defined.

Lemma parse_no_outline_run_witness :
  edge_drawings (ex_board [] [ex_unsupported BL_F_SilkS]) = [] /\
  parse ex_env ex_cfg (ex_board [] [ex_unsupported BL_F_SilkS]) ex_store =
    (None, ex_store, [mkLog Error no_outline_msg]).
Proof.
  split; [reflexivity|apply parse_no_outline_run; reflexivity].
Defined.

Lemma parse_output_lengths_witness :
  exists pcb comps, val (parse ex_env ex_cfg ex_board_full) ex_store = Some (pcb, comps) /\
    length (silkscreen_F pcb) = 1 /\ length comps = 1.
Proof.
  destruct (val (parse ex_env ex_cfg ex_board_full) ex_store) as [[pcb comps]|] eqn:E;
    [|vm_compute in E; discriminate E].
  exists pcb, comps; split; [reflexivity|].
  destruct (parse_output_lengths ex_env ex_cfg ex_board_full ex_store pcb comps E)
    as (_ & Hs & _ & _ & _ & _ & Hc & _).
  rewrite Hs, Hc; split; reflexivity.
Defined.

Lemma parse_optional_sections_witness :
  exists pcb comps,
    val (parse ex_env (mkConfig true true) ex_board_full) ex_store = Some (pcb, comps) /\
    tracks pcb = Some ([], []) /\
    exists l, nets pcb = Some l /\ Permutation l ["b"; "a"] /\ Sorted String.le l.
Proof.
  destruct (val (parse ex_env (mkConfig true true) ex_board_full) ex_store)
    as [[pcb comps]|] eqn:E; [|vm_compute in E; discriminate E].
  exists pcb, comps; split; [reflexivity|].
  destruct (parse_optional_sections ex_env (mkConfig true true) ex_board_full ex_store pcb comps E)
    as (Ht & _ & Hn & _).
  split; [exact (proj1 (Ht eq_refl))|exact (Hn eq_refl)].
Defined.

Lemma parse_components_witness :
  exists pcb comps, val (parse ex_env ex_cfg ex_board_full) ex_store = Some (pcb, comps) /\
    Forall2 (fun f c =>
               c_footprint c = fp_def_id f /\
               c_layer c = (if layer_eqb (fp_layer f) BL_F_Cu then Some "F"
                            else if layer_eqb (fp_layer f) BL_B_Cu then Some "B" else None) /\
               c_attr c = (if fp_exclude_from_bom f then "Virtual" else "Normal"))
            (b_footprints ex_board_full) comps.
Proof.
  destruct (val (parse ex_env ex_cfg ex_board_full) ex_store) as [[pcb comps]|] eqn:E;
    [|vm_compute in E; discriminate E].
  exists pcb, comps; split; [reflexivity|].
  exact (parse_components ex_env ex_cfg ex_board_full ex_store pcb comps E).
Defined.
